(** * Demand forecasting pipeline ([appa.py]): model and properties

    The pipeline works on a pandas [DataFrame] with the columns [Week] and
    [Demand], adds one forecast column per method, scores the methods and
    projects the next week.

    Numbers.  A pandas cell is a float64.  The finite ones are modelled as
    exact rationals ([Q]); the three special values the pipeline can meet
    (NaN, which pandas uses for "missing", and the two infinities that a
    division by zero yields) are constructors of their own.  Rounding is
    not part of the model, so equalities between computed numbers are
    stated up to [Qeq], and only what does not hinge on the rounding is
    stated at all.  The smoothing constant is a float, as in the program's
    own calls, so every forecast column is float64.  A column that was
    loaded as int64 is held by the same numbers; the one integer operation
    of the program, [Week.max() + 1], is modelled with the wrap-around of
    int64.

    Tables.  A [DataFrame] is an ordered list of named columns over the
    default index [0 .. nrows-1]; the functions of the program that assign
    to [df[...]] change the object they are given, which is modelled by a
    heap of tables addressed by references. *)

From stdpp Require Import base gmap.
From Stdlib Require Import PrimFloat.
From Stdlib Require Import String QArith Qabs Qround Lia Lqa Permutation List.
Import ListNotations.
Open Scope string_scope.
Open Scope list_scope.
Open Scope Q_scope.

(** ** Float values *)

Inductive fval : Type :=
| NaN
| PInf
| NInf
| Fin (q : Q).

Definition isna (v : fval) : bool :=
  match v with NaN => true | _ => false end.

Definition notna (v : fval) : bool := negb (isna v).

Definition inf_of_sign (c : comparison) : fval :=
  match c with Lt => NInf | Gt => PInf | Eq => NaN end.

Definition fopp (v : fval) : fval :=
  match v with
  | NaN => NaN
  | PInf => NInf
  | NInf => PInf
  | Fin q => Fin (- q)
  end.

Definition fadd (a b : fval) : fval :=
  match a, b with
  | NaN, _ | _, NaN => NaN
  | Fin x, Fin y => Fin (x + y)
  | PInf, NInf | NInf, PInf => NaN
  | PInf, _ | _, PInf => PInf
  | NInf, _ | _, NInf => NInf
  end.

Definition fsub (a b : fval) : fval := fadd a (fopp b).

Definition fmul (a b : fval) : fval :=
  match a, b with
  | NaN, _ | _, NaN => NaN
  | Fin x, Fin y => Fin (x * y)
  | Fin x, PInf | PInf, Fin x => inf_of_sign (x ?= 0)
  | Fin x, NInf | NInf, Fin x => inf_of_sign (0 ?= x)
  | PInf, PInf | NInf, NInf => PInf
  | PInf, NInf | NInf, PInf => NInf
  end.

(** numpy float division: a zero divisor gives an infinity (or NaN for
    0/0), never an exception. *)
Definition fdiv (a b : fval) : fval :=
  match a, b with
  | NaN, _ | _, NaN => NaN
  | Fin x, Fin y => if Qeq_bool y 0 then inf_of_sign (x ?= 0) else Fin (x / y)
  | Fin _, _ => Fin 0
  | PInf, Fin y => match y ?= 0 with Lt => NInf | _ => PInf end
  | NInf, Fin y => match y ?= 0 with Lt => PInf | _ => NInf end
  | _, _ => NaN
  end.

Definition fabs (v : fval) : fval :=
  match v with
  | NaN => NaN
  | PInf | NInf => PInf
  | Fin q => Fin (Qabs q)
  end.

(** [x ** 2] *)
Definition fpow2 (v : fval) : fval := fmul v v.

(** [a < b]; every comparison with NaN is false. *)
Definition flt (a b : fval) : bool :=
  match a, b with
  | NaN, _ | _, NaN => false
  | Fin x, Fin y => match x ?= y with Lt => true | _ => false end
  | NInf, NInf => false
  | NInf, _ => true
  | _, PInf => match a with PInf => false | _ => true end
  | _, _ => false
  end.

(** [v != 0]; true for NaN. *)
Definition fne0 (v : fval) : bool :=
  match v with
  | Fin q => negb (Qeq_bool q 0)
  | _ => true
  end.

Definition of_nat (n : nat) : fval := Fin (inject_Z (Z.of_nat n)).

(** Equality of float values up to the representation of the rational. *)
Definition feq (a b : fval) : Prop :=
  match a, b with
  | NaN, NaN | PInf, PInf | NInf, NInf => True
  | Fin x, Fin y => x == y
  | _, _ => False
  end.

Definition feqb (a b : fval) : bool :=
  match a, b with
  | NaN, NaN | PInf, PInf | NInf, NInf => true
  | Fin x, Fin y => Qeq_bool x y
  | _, _ => false
  end.

(** ** Series: one column of cells over the index [0 .. n-1] *)

Definition Series := list fval.

Definition dropna (s : Series) : Series := filter notna s.

(** [Series.count()]: the number of cells that are not NaN. *)
Definition count (s : Series) : nat := length (dropna s).

Definition fsum (l : list fval) : fval := fold_right fadd (Fin 0) l.

(** [Series.sum()], skipping NaN; the empty sum is 0. *)
Definition series_sum (s : Series) : fval := fsum (dropna s).

(** [Series.mean()], skipping NaN; NaN when nothing is left. *)
Definition series_mean (s : Series) : fval :=
  match dropna s with
  | [] => NaN
  | obs => fdiv (fsum obs) (of_nat (length obs))
  end.

Definition fmax (a b : fval) : fval := if flt a b then b else a.

(** [Series.max()], skipping NaN. *)
Definition series_max (s : Series) : fval :=
  match dropna s with
  | [] => NaN
  | x :: r => fold_left fmax r x
  end.

Definition series_abs (s : Series) : Series := map fabs s.

Definition series_pow2 (s : Series) : Series := map fpow2 s.

(** [a - b] for two series; the labels present on one side only give NaN. *)
Fixpoint series_sub (a b : Series) : Series :=
  match a with
  | [] => map (fun _ => NaN) b
  | x :: a' =>
      match b with
      | [] => NaN :: series_sub a' []
      | y :: b' => fsub x y :: series_sub a' b'
      end
  end.

(** [Series.shift(periods)] for [periods >= 0]: the values move down, NaN
    enters at the top, the length stays. *)
Definition shift (periods : nat) (s : Series) : Series :=
  firstn (length s) (repeat NaN periods ++ s).

(** The cells of the window of width [w] that ends at index [i]. *)
Definition window_at (w i : nat) (s : Series) : Series :=
  let start := (i + 1 - w)%nat in
  firstn (i + 1 - start) (skipn start s).

(** pandas prepares the values of a rolling window by turning every
    infinite cell into NaN. *)
Definition inf_to_nan (v : fval) : fval :=
  match v with
  | PInf | NInf => NaN
  | _ => v
  end.

(** [Series.rolling(window=w).mean()]: [min_periods] defaults to [w], so
    a window with fewer than [w] observations (too early in the series, or
    holding a NaN or an infinite cell) gives NaN. *)
Definition rolling_mean (w : nat) (s : Series) : Series :=
  let values := map inf_to_nan s in
  map (fun i =>
         let obs := dropna (window_at w i values) in
         if (length obs <? w)%nat then NaN
         else fdiv (fsum obs) (of_nat (length obs)))
      (seq 0 (length s)).

(** [Series.iloc[-k:]] *)
Definition iloc_tail (k : nat) (s : Series) : Series :=
  skipn (length s - k) s.

(** ** Exceptions *)

Inductive exn : Type :=
| KeyError (key : string)
| ValueError (msg : string)
| IndexError (msg : string).

Inductive result (A : Type) : Type :=
| Ok (a : A)
| Err (e : exn).

Arguments Ok {A} a.
Arguments Err {A} e.

Definition bind {A B : Type} (m : result A) (k : A -> result B) : result B :=
  match m with
  | Ok a => k a
  | Err e => Err e
  end.

Notation "'do' x <- m ; k" := (bind m (fun x => k))
  (at level 10, x name, m at level 100, k at level 200,
   format "'[v' 'do'  x  <-  m ;  '/' k ']'").

(** ** DataFrame *)

Record DataFrame : Type := mkDataFrame {
  nrows : nat;
  columns : list (string * Series)
}.

(** [df.columns] *)
Definition column_names (df : DataFrame) : list string :=
  map fst (columns df).

Fixpoint get_col (name : string) (cols : list (string * Series)) : option Series :=
  match cols with
  | [] => None
  | (k, v) :: r => if String.eqb k name then Some v else get_col name r
  end.

(** An existing column keeps its place, a new one goes last. *)
Fixpoint set_col (name : string) (s : Series) (cols : list (string * Series))
  : list (string * Series) :=
  match cols with
  | [] => [(name, s)]
  | (k, v) :: r =>
      if String.eqb k name then (k, s) :: r else (k, v) :: set_col name s r
  end.

(** Every column has one cell per row, and no name occurs twice. *)
Definition wf (df : DataFrame) : Prop :=
  NoDup (column_names df) /\
  Forall (fun c => length (snd c) = nrows df) (columns df).

(** [df[name]] *)
Definition getitem (df : DataFrame) (name : string) : result Series :=
  match get_col name (columns df) with
  | Some s => Ok s
  | None => Err (KeyError name)
  end.

(** [df.loc[i, name]] *)
Definition loc (df : DataFrame) (i : nat) (name : string) : result fval :=
  do s <- getitem df name;
  match nth_error s i with
  | Some v => Ok v
  | None => Err (KeyError "row label")
  end.

(** A series assigned to a column is aligned on the index of the table. *)
Definition align (n : nat) (s : Series) : Series :=
  firstn n s ++ repeat NaN (n - length s).

(** [df[name] = s] for a series [s] *)
Definition setitem_series (name : string) (s : Series) (df : DataFrame) : DataFrame :=
  mkDataFrame (nrows df) (set_col name (align (nrows df) s) (columns df)).

(** [df[name] = l] for a Python list [l] *)
Definition setitem_list (name : string) (l : list fval) (df : DataFrame)
  : result DataFrame :=
  if (length l =? nrows df)%nat
  then Ok (mkDataFrame (nrows df) (set_col name l (columns df)))
  else Err (ValueError "Length of values does not match length of index").

(** [s.iloc[-1]] *)
Definition iloc_last (s : Series) : result fval :=
  match s with
  | [] => Err (IndexError "single positional indexer is out-of-bounds")
  | _ => Ok (last s NaN)
  end.

(** [l[i]] on a Python list, [i >= 0] *)
Definition list_get (l : list fval) (i : nat) : result fval :=
  match nth_error l i with
  | Some v => Ok v
  | None => Err (IndexError "list index out of range")
  end.

(** ** Forecast functions *)

Definition naive_forecast (df : DataFrame) : result DataFrame :=
  do d <- getitem df "Demand";
  Ok (setitem_series "Naive" (shift 1 d) df).

Definition three_weeks_moving_average (df : DataFrame) : result DataFrame :=
  do d <- getitem df "Demand";
  Ok (setitem_series "ThreeWeeksMA" (shift 1 (rolling_mean 3 d)) df).

(** The loop of [exponential_smoothing] over the remaining indices, with
    the list [forecasts] built so far. *)
Fixpoint es_loop (df : DataFrame) (alpha : Q) (idx : list nat)
  (forecasts : list fval) : result (list fval) :=
  match idx with
  | [] => Ok forecasts
  | i :: rest =>
      if (i =? 0)%nat then
        do v <- loc df i "Demand";
        es_loop df alpha rest (forecasts ++ [v])
      else
        do d <- loc df (i - 1) "Demand";
        do f <- list_get forecasts (i - 1);
        let forecast := fadd (fmul (Fin alpha) d) (fmul (Fin (1 - alpha)) f) in
        es_loop df alpha rest (forecasts ++ [forecast])
  end.

Definition exponential_smoothing (df : DataFrame) (alpha : Q) : result DataFrame :=
  do forecasts <- es_loop df alpha (seq 0 (nrows df)) [];
  setitem_list "ExponentialSmoothing" forecasts df.

(** ** Error metrics *)

Definition mean_absolute_deviation (df : DataFrame) (forecast_col : string)
  : result fval :=
  do d <- getitem df "Demand";
  do f <- getitem df forecast_col;
  let errors := series_sub d f in
  Ok (series_mean (series_abs errors)).

Definition mean_squared_error (df : DataFrame) (forecast_col : string)
  : result fval :=
  do d <- getitem df "Demand";
  do f <- getitem df forecast_col;
  let errors := series_sub d f in
  Ok (series_mean (series_pow2 errors)).

Definition tracking_signal (df : DataFrame) (forecast_col : string)
  : result fval :=
  do d <- getitem df "Demand";
  do f <- getitem df forecast_col;
  let errors := series_sub d f in
  let mad := series_mean (series_abs errors) in
  let ts := if fne0 mad then fdiv (series_sum errors) mad else NaN in
  Ok ts.

(** ** Best forecast *)

(** A Python [dict] from column names to metric values, in insertion
    order. *)
Fixpoint dict_get (k : string) (d : list (string * fval)) : option fval :=
  match d with
  | [] => None
  | (k', v) :: r => if String.eqb k' k then Some v else dict_get k r
  end.

Fixpoint dict_set (k : string) (v : fval) (d : list (string * fval))
  : list (string * fval) :=
  match d with
  | [] => [(k, v)]
  | (k', v') :: r =>
      if String.eqb k' k then (k', v) :: r else (k', v') :: dict_set k v r
  end.

(** [errors.get]; it is only applied to keys of [errors]. *)
Definition errors_get (errors : list (string * fval)) (k : string) : fval :=
  match dict_get k errors with
  | Some v => v
  | None => NaN
  end.

(** [min(iterable, key=...)]: the running minimum is replaced only by a
    strictly smaller candidate. *)
Fixpoint min_loop (key : string -> fval) (best : string) (ks : list string)
  : string :=
  match ks with
  | [] => best
  | k :: r => if flt (key k) (key best) then min_loop key k r
              else min_loop key best r
  end.

Definition py_min (ks : list string) (key : string -> fval) : result string :=
  match ks with
  | [] => Err (ValueError "min() arg is an empty sequence")
  | k :: r => Ok (min_loop key k r)
  end.

Definition forecast_cols_of (df : DataFrame) : list string :=
  filter (fun col => negb (existsb (String.eqb col) ["Week"; "Demand"]))
         (column_names df).

(** The loop of [best_forecast] that fills [errors]. *)
Fixpoint errors_loop (df : DataFrame) (method : string) (cols : list string)
  (errors : list (string * fval)) : result (list (string * fval)) :=
  match cols with
  | [] => Ok errors
  | col :: rest =>
      if String.eqb method "MAD" then
        do v <- mean_absolute_deviation df col;
        errors_loop df method rest (dict_set col v errors)
      else if String.eqb method "MSE" then
        do v <- mean_squared_error df col;
        errors_loop df method rest (dict_set col v errors)
      else Err (ValueError "Method must be 'MAD' or 'MSE'")
  end.

Definition best_forecast (df : DataFrame) (method : string)
  : result (string * fval) :=
  let forecast_cols := forecast_cols_of df in
  do errors <- errors_loop df method forecast_cols [];
  do best_col <- py_min (map fst errors) (errors_get errors);
  match dict_get best_col errors with
  | Some v => Ok (best_col, v)
  | None => Err (KeyError best_col)
  end.

Record BestMethods : Type := mkBestMethods {
  best_by_MAD : string * fval;
  best_by_MSE : string * fval
}.

Definition get_best_methods (df : DataFrame) : result BestMethods :=
  do by_mad <- best_forecast df "MAD";
  do by_mse <- best_forecast df "MSE";
  Ok (mkBestMethods by_mad by_mse).

(** ** Forecast next week *)

(** The [Week] column is never assigned by the program, so it has the
    dtype it was loaded with: [read_excel] gives a column int64 when every
    cell of it is an integer (that fits), and float64 otherwise. *)
Definition is_int64_cell (v : fval) : bool :=
  match v with
  | Fin q =>
      Qeq_bool q (inject_Z (Qfloor q)) &&
      (- 2 ^ 63 <=? Qfloor q)%Z && (Qfloor q <? 2 ^ 63)%Z
  | _ => false
  end.

Definition int64_column (s : Series) : bool := forallb is_int64_cell s.

(** int64 arithmetic wraps around. *)
Definition wrap_int64 (z : Z) : Z := ((z + 2 ^ 63) mod 2 ^ 64 - 2 ^ 63)%Z.

(** [m + 1] for the scalar [m] that [max()] returned: an int64 addition
    for an int64 column, a float addition otherwise. *)
Definition scalar_add_one (int64 : bool) (m : fval) : fval :=
  if int64 then
    match m with
    | Fin q => Fin (inject_Z (wrap_int64 (Qfloor q + 1)))
    | _ => fadd m (Fin 1)
    end
  else fadd m (Fin 1).

Definition forecast_next_week (df : DataFrame) (alpha : Q) : result DataFrame :=
  do w <- getitem df "Week";
  let next_week := scalar_add_one (int64_column w) (series_max w) in
  do d <- getitem df "Demand";
  do naive <- iloc_last d;
  let three_weeks_ma :=
    if (3 <=? nrows df)%nat then series_mean (iloc_tail 3 d)
    else series_mean d in
  do es <- getitem df "ExponentialSmoothing";
  do last_forecast <- iloc_last es;
  do last_demand <- iloc_last d;
  let exp_smoothing :=
    fadd (fmul (Fin alpha) last_demand) (fmul (Fin (1 - alpha)) last_forecast) in
  Ok (mkDataFrame 1 [("Week", [next_week]);
                     ("Naive", [naive]);
                     ("ThreeWeeksMA", [three_weeks_ma]);
                     ("ExponentialSmoothing", [exp_smoothing])]).

(** ** Tables as shared objects

    [df[...] = ...] changes the table object itself and the forecast
    functions return the object they were given.  A heap maps references to
    tables; a function of the program that is handed a reference reads the
    table behind it, stores the changed table at the same reference and
    returns that reference. *)

Definition in_place (f : DataFrame -> result DataFrame)
  (r : nat) (h : gmap nat DataFrame) : result (nat * gmap nat DataFrame) :=
  match h !! r with
  | None => Err (ValueError "no object behind the reference")
  | Some df => do df' <- f df; Ok (r, <[r := df']> h)
  end.

(** The three passes, in the order of the program's start-up code; each
    works on the table the one before has left. *)
Definition apply_forecasts (df : DataFrame) (alpha : Q) : result DataFrame :=
  do df1 <- naive_forecast df;
  do df2 <- three_weeks_moving_average df1;
  exponential_smoothing df2 alpha.

(** ** The running example of the documentation *)

Definition of_rationals (l : list Q) : Series := map Fin l.

Definition example_df : DataFrame :=
  mkDataFrame 4 [("Week", of_rationals [1; 2; 3; 4]);
                 ("Demand", of_rationals [10; 12; 11; 13])].

(** [example_df] after the three passes. *)
Definition example_forecasts : result DataFrame :=
  apply_forecasts example_df (1 # 10).

(** Columns compared cell by cell, up to [feq]. *)
Definition series_eq (a b : Series) : Prop := Forall2 feq a b.

Fixpoint series_eqb (a b : Series) : bool :=
  match a, b with
  | [], [] => true
  | x :: a', y :: b' => feqb x y && series_eqb a' b'
  | _, _ => false
  end.

(** ** Notions used to state the properties *)

(** What the list [forecasts] satisfies at every turn of the loop. *)
Definition es_inv (alpha : Q) (ds fs : list Q) : Prop :=
  ((0 < length fs)%nat -> nth 0 fs 0 = nth 0 ds 0) /\
  (forall i, (1 <= i < length fs)%nat ->
     nth i fs 0 = alpha * nth (i - 1) ds 0 + (1 - alpha) * nth (i - 1) fs 0).

(** The column of the documentation's example, as the documentation gives
    it, and as the recurrence gives it. *)
Definition documented_es_column : Series :=
  of_rationals [10; 102 # 10; 1038 # 100; 10412 # 1000].

Definition computed_es_column : Series :=
  of_rationals [10; 10; 102 # 10; 1028 # 100].

Fixpoint nodupb (l : list string) : bool :=
  match l with
  | [] => true
  | x :: r => negb (existsb (String.eqb x) r) && nodupb r
  end.

Definition wfb (df : DataFrame) : bool :=
  nodupb (column_names df) &&
  forallb (fun c => (length (snd c) =? nrows df)%nat) (columns df).

(** The example table after the three passes. *)
Definition example_scored : DataFrame :=
  match example_forecasts with
  | Ok df => df
  | Err _ => example_df
  end.

(** The pairs (demand, forecast) at the indices where the forecast is
    defined. *)
Fixpoint defined_pairs (ds : list Q) (fs : Series) : list (Q * fval) :=
  match ds, fs with
  | d :: ds', f :: fs' =>
      if notna f then (d, f) :: defined_pairs ds' fs' else defined_pairs ds' fs'
  | _, _ => []
  end.

(** The mean of a list of values; undefined (NaN) for the empty list. *)
Definition mean_of (l : list fval) : fval :=
  match l with
  | [] => NaN
  | _ => fdiv (fsum l) (of_nat (length l))
  end.

(** MAD as the documentation words it: the mean of [|demand - forecast|]
    over the indices where the forecast is defined. *)
Definition MAD_over_defined (ds : list Q) (fs : Series) : fval :=
  mean_of (map (fun p => fabs (fsub (Fin (fst p)) (snd p))) (defined_pairs ds fs)).

(** MSE as the documentation words it. *)
Definition MSE_over_defined (ds : list Q) (fs : Series) : fval :=
  mean_of (map (fun p => fpow2 (fsub (Fin (fst p)) (snd p))) (defined_pairs ds fs)).

(** The sum of the errors over the indices where the forecast is defined. *)
Definition error_sum_over_defined (ds : list Q) (fs : Series) : fval :=
  fsum (map (fun p => fsub (Fin (fst p)) (snd p)) (defined_pairs ds fs)).

(** The three forecast passes, each with the column it writes. *)
Inductive pass : Type :=
| NaivePass
| ThreeWeeksMAPass
| ExponentialSmoothingPass (alpha : Q).

Definition run_pass (p : pass) (df : DataFrame) : result DataFrame :=
  match p with
  | NaivePass => naive_forecast df
  | ThreeWeeksMAPass => three_weeks_moving_average df
  | ExponentialSmoothingPass alpha => exponential_smoothing df alpha
  end.

Definition own_column (p : pass) : string :=
  match p with
  | NaivePass => "Naive"
  | ThreeWeeksMAPass => "ThreeWeeksMA"
  | ExponentialSmoothingPass _ => "ExponentialSmoothing"
  end.

Definition Qsum (l : list Q) : Q := fold_right Qplus 0 l.

(** The mean of a non-empty list of numbers. *)
Definition Qmean (l : list Q) : Q := Qsum l / inject_Z (Z.of_nat (length l)).

(** The last three numbers of a list (all of them when there are fewer). *)
Definition last3 (l : list Q) : list Q := skipn (length l - 3) l.

(** Two tables with the same names in the same order and equal cells. *)
Definition frame_eqb (a b : DataFrame) : bool :=
  (nrows a =? nrows b)%nat &&
  (length (columns a) =? length (columns b))%nat &&
  forallb (fun cc => String.eqb (fst (fst cc)) (fst (snd cc)) &&
                     series_eqb (snd (fst cc)) (snd (snd cc)))
          (combine (columns a) (columns b)).

(** The record of the documentation's example, as the documentation gives
    it, and as the program gives it. *)
Definition documented_next_week : DataFrame :=
  mkDataFrame 1 [("Week", [Fin 5]); ("Naive", [Fin 13]);
                 ("ThreeWeeksMA", [Fin 12]);
                 ("ExponentialSmoothing", [Fin (110708 # 10000)])].

Definition computed_next_week : DataFrame :=
  mkDataFrame 1 [("Week", [Fin 5]); ("Naive", [Fin 13]);
                 ("ThreeWeeksMA", [Fin 12]);
                 ("ExponentialSmoothing", [Fin (10552 # 1000)])].

(** A cell that, where defined, is the number [c]. *)
Definition hits (c : Q) (f : fval) : Prop :=
  match f with
  | NaN => True
  | Fin v => v == c
  | _ => False
  end.

(** What C8 says of one method on the table [df], with the number of
    defined cells of its column. *)
Definition constant_scores (df : DataFrame) (c : Q) (method : string)
  (defined : nat) : Prop :=
  exists col mad mse,
    get_col method (columns df) = Some col /\
    Forall (hits c) col /\
    count col = defined /\
    mean_absolute_deviation df method = Ok mad /\
    mean_squared_error df method = Ok mse /\
    ((1 <= defined)%nat -> feq mad (Fin 0) /\ feq mse (Fin 0)) /\
    (defined = 0%nat -> mad = NaN /\ mse = NaN) /\
    tracking_signal df method = Ok NaN.

Definition constant_df (c : Q) (n : nat) : DataFrame :=
  mkDataFrame n [("Week", map (fun i => of_nat (i + 1)) (seq 0 n));
                 ("Demand", of_rationals (repeat c n))].

(** The metric that [best_forecast] computes for a column under the
    criterion "MAD" or "MSE". *)
Definition metric (df : DataFrame) (method : string) (col : string) : result fval :=
  if String.eqb method "MAD" then mean_absolute_deviation df col
  else mean_squared_error df col.

(** The three passes run in another order: smoothing first. *)
Definition smoothing_first (df : DataFrame) (alpha : Q) : result DataFrame :=
  do df1 <- exponential_smoothing df alpha;
  do df2 <- naive_forecast df1;
  three_weeks_moving_average df2.

(** The metric values of the example table, read off the program. *)
Definition example_metric (method : string) (c : string) : fval :=
  match metric example_scored method c with
  | Ok v => v
  | Err _ => NaN
  end.

(** ** Views and the error table *)

(** [df[names]] for a list of column names: the named columns in the
    order asked for; [KeyError] when one of them is not a column. *)
Fixpoint select_cols (names : list string) (cols : list (string * Series))
  : result (list (string * Series)) :=
  match names with
  | [] => Ok []
  | name :: rest =>
      match get_col name cols with
      | None => Err (KeyError "not in index")
      | Some s => do picked <- select_cols rest cols; Ok ((name, s) :: picked)
      end
  end.

Definition getitem_list (df : DataFrame) (names : list string) : result DataFrame :=
  do picked <- select_cols names (columns df);
  Ok (mkDataFrame (nrows df) picked).

Definition get_actual_demand (df : DataFrame) : result DataFrame :=
  getitem_list df ["Week"; "Demand"].

Definition get_all_forecasts (df : DataFrame) : result DataFrame :=
  getitem_list df ["Week"; "Demand"; "Naive"; "ThreeWeeksMA";
                   "ExponentialSmoothing"].

(** One row of the table that [get_error_table] builds, with its columns
    [Method], [MAD], [MSE], [TS]. *)
Record ErrorRow : Type := mkErrorRow {
  Method : string;
  MAD : fval;
  MSE : fval;
  TS : fval
}.

(** The loop of [get_error_table] over the remaining methods, with the
    list [data] built so far. *)
Fixpoint error_table_loop (df : DataFrame) (methods : list string)
  (data : list ErrorRow) : result (list ErrorRow) :=
  match methods with
  | [] => Ok data
  | method :: rest =>
      do mad <- mean_absolute_deviation df method;
      do mse <- mean_squared_error df method;
      do ts <- tracking_signal df method;
      error_table_loop df rest (data ++ [mkErrorRow method mad mse ts])
  end.

Definition get_error_table (df : DataFrame) : result (list ErrorRow) :=
  error_table_loop df ["Naive"; "ThreeWeeksMA"; "ExponentialSmoothing"] [].

(** ** Further notions used to state properties *)

(** A cell that is a number or NaN. *)
Definition finite_or_nan (v : fval) : Prop :=
  match v with
  | NaN | Fin _ => True
  | _ => False
  end.

(** A value that is not negative: a number [>= 0] or plus infinity. *)
Definition nonneg (v : fval) : Prop :=
  match v with
  | Fin q => 0 <= q
  | PInf => True
  | _ => False
  end.

(** The smoothing recurrence on cells of any kind. *)
Definition es_cells (alpha : Q) (d forecasts : Series) : Prop :=
  ((0 < length forecasts)%nat -> nth_error forecasts 0 = nth_error d 0) /\
  (forall i, (1 <= i < length forecasts)%nat ->
     nth_error forecasts i =
     Some (fadd (fmul (Fin alpha) (nth (i - 1) d NaN))
                (fmul (Fin (1 - alpha)) (nth (i - 1) forecasts NaN)))).

(** Two tables with the same rows and, name by name, the same columns
    (the order of the columns apart). *)
Definition same_columns (a b : DataFrame) : Prop :=
  nrows a = nrows b /\
  forall name, get_col name (columns a) = get_col name (columns b).

(** The table as loaded: the two required columns. *)
Definition loaded (n : nat) (w d : Series) : DataFrame :=
  mkDataFrame n [("Week", w); ("Demand", d)].

(** A table without a demand column. *)
Definition weeks_only : DataFrame :=
  mkDataFrame 2 [("Week", of_rationals [1; 2])].

(** The value of a metric that is known to be computed without error. *)
Definition metric_value (df : DataFrame) (method : string) (col : string) : fval :=
  match metric df method col with
  | Ok v => v
  | Err _ => NaN
  end.

(** One week of history, as loaded and after the three passes. *)
Definition one_week : DataFrame := loaded 1 [Fin 1] [Fin 10].

Definition one_week_scored : DataFrame :=
  match apply_forecasts one_week (1 # 10) with
  | Ok df => df
  | Err _ => one_week
  end.


(** Four weeks, the demand of the second one missing. *)
Definition gap_df : DataFrame :=
  mkDataFrame 4 [("Week", of_rationals [1; 2; 3; 4]);
                 ("Demand", [Fin 10; NaN; Fin 11; Fin 13])].

(** Two histories that share their first three weeks. *)
Definition history_a : DataFrame :=
  mkDataFrame 5 [("Week", of_rationals [1; 2; 3; 4; 5]);
                 ("Demand", of_rationals ([10; 12; 11] ++ [13; 14]))].

Definition history_b : DataFrame :=
  mkDataFrame 4 [("Week", of_rationals [1; 2; 3; 4]);
                 ("Demand", of_rationals ([10; 12; 11] ++ [20]))].

(** A number that an int64 holds: an integer from [-2^63] to [2^63 - 1]. *)
Definition int64_number (q : Q) : Prop :=
  exists z : Z, q == inject_Z z /\ (- 2 ^ 63 <= z < 2 ^ 63)%Z.

(** A forecast column given by its numbers, [None] standing for an
    undefined forecast. *)
Definition cells (qs : list (option Q)) : Series :=
  map (fun o => match o with Some q => Fin q | None => NaN end) qs.

(** The errors [demand - forecast] at the indices where the forecast is
    defined, as numbers. *)
Fixpoint errors_at_defined (ds : list Q) (qs : list (option Q)) : list Q :=
  match ds, qs with
  | d :: ds', Some q :: qs' => (d - q) :: errors_at_defined ds' qs'
  | _ :: ds', None :: qs' => errors_at_defined ds' qs'
  | _, _ => []
  end.

(** One turn of the smoothing recurrence on binary64 numbers, with their
    rounding. *)
Definition smoothing_step_binary64 (alpha d f : float) : float :=
  (alpha * d + (1 - alpha) * f)%float.

(** * Properties *)

(** ** Float values *)

Lemma feqb_spec (a b : fval) : feqb a b = true <-> feq a b.
Proof.
  destruct a, b; simpl; try tauto; try (split; [discriminate | tauto]).
  apply Qeq_bool_iff.
Qed.

Lemma series_eqb_spec (a b : Series) : series_eqb a b = true <-> series_eq a b.
Proof.
  revert b; induction a as [|x a IH]; intros [|y b]; simpl.
  - split; [constructor | reflexivity].
  - split; [discriminate | intros H; inversion H].
  - split; [discriminate | intros H; inversion H].
  - rewrite andb_true_iff, feqb_spec, IH. split.
    + intros [H1 H2]. constructor; assumption.
    + intros H. inversion H; subst. split; assumption.
Qed.

Lemma feq_refl (a : fval) : feq a a.
Proof. destruct a; simpl; auto. reflexivity. Qed.

Lemma notna_Fin (q : Q) : notna (Fin q) = true.
Proof. reflexivity. Qed.

Lemma dropna_Fin (l : list Q) : dropna (map Fin l) = map Fin l.
Proof.
  unfold dropna. induction l as [|q l IH]; simpl; [reflexivity|].
  f_equal. exact IH.
Qed.

(** The number of defined cells of a column whose NaN cells are exactly
    the first [k]. *)
Lemma count_nan_prefix (s : Series) (k : nat) :
  (forall i v, nth_error s i = Some v -> isna v = (i <? k)%nat) ->
  count s = (length s - k)%nat.
Proof.
  revert k; induction s as [|a s IH]; intros k H; [reflexivity|].
  unfold count, dropna in *. simpl. destruct k as [|k].
  - assert (Ha : isna a = false) by apply (H 0%nat a eq_refl).
    unfold notna at 1. rewrite Ha. simpl.
    rewrite (IH 0%nat); [lia|]. intros i v Hi. apply (H (S i) v Hi).
  - assert (Ha : isna a = true) by apply (H 0%nat a eq_refl).
    unfold notna at 1. rewrite Ha. simpl.
    apply IH. intros i v Hi. apply (H (S i) v Hi).
Qed.

(** ** Columns of a table *)

Lemma get_set_col_eq (name : string) (s : Series) (cols : list (string * Series)) :
  get_col name (set_col name s cols) = Some s.
Proof.
  induction cols as [|[k v] r IH]; simpl.
  - rewrite String.eqb_refl. reflexivity.
  - destruct (String.eqb k name) eqn:E; simpl; rewrite E; auto.
Qed.

Lemma get_set_col_ne (name other : string) (s : Series)
  (cols : list (string * Series)) :
  other <> name ->
  get_col other (set_col name s cols) = get_col other cols.
Proof.
  intros Hne. induction cols as [|[k v] r IH]; simpl.
  - destruct (String.eqb name other) eqn:E; [|reflexivity].
    apply String.eqb_eq in E. congruence.
  - destruct (String.eqb k name) eqn:E; simpl.
    + apply String.eqb_eq in E. subst k.
      destruct (String.eqb name other) eqn:E2; [|reflexivity].
      apply String.eqb_eq in E2. congruence.
    + rewrite IH. reflexivity.
Qed.

Lemma get_col_In (name : string) (cols : list (string * Series)) (s : Series) :
  get_col name cols = Some s -> In (name, s) cols.
Proof.
  induction cols as [|[k v] r IH]; simpl; [discriminate|].
  destruct (String.eqb k name) eqn:E.
  - apply String.eqb_eq in E. intros [= ->]. left. congruence.
  - intros H. right. auto.
Qed.

Lemma get_col_names (name : string) (cols : list (string * Series)) :
  In name (map fst cols) <-> exists s, get_col name cols = Some s.
Proof.
  induction cols as [|[k v] r IH]; simpl.
  - split; [tauto | intros [s H]; discriminate].
  - destruct (String.eqb k name) eqn:E.
    + apply String.eqb_eq in E. split; eauto.
    + apply String.eqb_neq in E. rewrite <- IH. tauto.
Qed.

(** Assigning a column keeps the names and their order; a new name goes
    last. *)
Lemma set_col_names (name : string) (s : Series) (cols : list (string * Series)) :
  map fst (set_col name s cols) =
  if existsb (String.eqb name) (map fst cols) then map fst cols
  else map fst cols ++ [name].
Proof.
  induction cols as [|[k v] r IH]; simpl; [reflexivity|].
  rewrite (String.eqb_sym name k).
  destruct (String.eqb k name) eqn:E; simpl; [reflexivity|].
  rewrite IH. destruct (existsb _ _); reflexivity.
Qed.

Lemma wf_length (df : DataFrame) (name : string) (s : Series) :
  wf df -> get_col name (columns df) = Some s -> length s = nrows df.
Proof.
  intros [_ Hall] Hget. apply get_col_In in Hget.
  rewrite Forall_forall in Hall. apply (Hall _ Hget).
Qed.

Lemma align_same (n : nat) (s : Series) : length s = n -> align n s = s.
Proof.
  intros <-. unfold align. rewrite firstn_all, Nat.sub_diag. apply app_nil_r.
Qed.

Lemma length_align (n : nat) (s : Series) : length (align n s) = n.
Proof.
  unfold align. rewrite length_app, length_firstn, repeat_length. lia.
Qed.

(** ** Shifted and rolling columns *)

Lemma length_shift (k : nat) (s : Series) : length (shift k s) = length s.
Proof.
  unfold shift. rewrite length_firstn, length_app, repeat_length. lia.
Qed.

Lemma nth_error_shift (k : nat) (s : Series) (i : nat) :
  (i < length s)%nat ->
  nth_error (shift k s) i =
  if (i <? k)%nat then Some NaN else nth_error s (i - k).
Proof.
  intros Hi. unfold shift. rewrite nth_error_firstn.
  destruct (Nat.ltb_spec i (length s)) as [_|]; [|lia].
  rewrite nth_error_app, repeat_length.
  destruct (Nat.ltb_spec i k) as [Hk|Hk]; [|reflexivity].
  apply nth_error_repeat. exact Hk.
Qed.

Lemma nth_error_of_rationals (ds : list Q) (i : nat) :
  (i < length ds)%nat ->
  nth_error (of_rationals ds) i = Some (Fin (nth i ds 0)).
Proof.
  intros Hi. unfold of_rationals. rewrite nth_error_map.
  rewrite (nth_error_nth' ds 0 Hi). reflexivity.
Qed.

Lemma length_of_rationals (ds : list Q) : length (of_rationals ds) = length ds.
Proof. apply length_map. Qed.

(** The lagged demand column. *)
Lemma naive_column_cells (ds : list Q) (i : nat) :
  (i < length ds)%nat ->
  nth_error (shift 1 (of_rationals ds)) i =
  Some (if (i <? 1)%nat then NaN else Fin (nth (i - 1) ds 0)).
Proof.
  intros Hi. rewrite nth_error_shift by (rewrite length_of_rationals; exact Hi).
  destruct (Nat.ltb_spec i 1); [reflexivity|].
  apply nth_error_of_rationals. lia.
Qed.

Lemma naive_column_count (ds : list Q) :
  count (shift 1 (of_rationals ds)) = (length ds - 1)%nat.
Proof.
  rewrite (count_nan_prefix _ 1), length_shift, length_of_rationals; [reflexivity|].
  intros i v Hi.
  assert (Hlt : (i < length ds)%nat).
  { rewrite <- (length_of_rationals ds), <- (length_shift 1).
    apply nth_error_Some. congruence. }
  rewrite (naive_column_cells ds i Hlt) in Hi. injection Hi as <-.
  destruct (i <? 1)%nat; reflexivity.
Qed.

(** ** C6: the naive forecast *)

(** C6.  On a table whose [Demand] column holds the [n] numbers [ds],
    [naive_forecast] succeeds and its [Naive] column has [n] cells, with
    [forecast[i] = demand[i-1]] for every [i >= 1], NaN at index 0, and so
    exactly [n-1] defined cells. *)
Theorem naive_forecast_lag (df : DataFrame) (ds : list Q) :
  wf df ->
  get_col "Demand" (columns df) = Some (of_rationals ds) ->
  exists df' col,
    naive_forecast df = Ok df' /\
    get_col "Naive" (columns df') = Some col /\
    length col = length ds /\
    (forall i, (1 <= i < length ds)%nat ->
               nth_error col i = Some (Fin (nth (i - 1) ds 0))) /\
    ((0 < length ds)%nat -> nth_error col 0 = Some NaN) /\
    count col = (length ds - 1)%nat.
Proof.
  intros Hwf Hd.
  pose proof (wf_length df _ _ Hwf Hd) as Hn. rewrite length_of_rationals in Hn.
  unfold naive_forecast, getitem. rewrite Hd. simpl.
  exists (setitem_series "Naive" (shift 1 (of_rationals ds)) df).
  exists (shift 1 (of_rationals ds)).
  split; [reflexivity|]. split.
  { simpl. rewrite get_set_col_eq. f_equal. apply align_same.
    rewrite length_shift, length_of_rationals. exact Hn. }
  split; [rewrite length_shift; apply length_of_rationals|].
  split; [|split].
  - intros i [H1 H2]. rewrite (naive_column_cells ds i H2).
    destruct (Nat.ltb_spec i 1); [lia | reflexivity].
  - intros H. exact (naive_column_cells ds 0 H).
  - apply naive_column_count.
Qed.

Lemma wf_example_df : wf example_df.
Proof.
  split.
  - simpl. repeat constructor; simpl; intuition discriminate.
  - repeat constructor.
Qed.

Lemma naive_forecast_lag_witness :
  exists df' col,
    naive_forecast example_df = Ok df' /\
    get_col "Naive" (columns df') = Some col /\
    length col = length [10; 12; 11; 13] /\
    (forall i, (1 <= i < length [10; 12; 11; 13])%nat ->
               nth_error col i = Some (Fin (nth (i - 1) [10; 12; 11; 13] 0))) /\
    ((0 < length [10; 12; 11; 13])%nat -> nth_error col 0 = Some NaN) /\
    count col = (length [10; 12; 11; 13] - 1)%nat.
Proof.
  apply (naive_forecast_lag example_df [10; 12; 11; 13]).
  - exact wf_example_df.
  - reflexivity.
Defined.

(** ** C7: the three-week moving average *)

Lemma firstn3_skipn (l : list Q) (k : nat) :
  (k + 3 <= length l)%nat ->
  firstn 3 (skipn k l) = [nth k l 0; nth (k + 1) l 0; nth (k + 2) l 0].
Proof.
  revert l; induction k as [|k IH]; intros l Hl.
  - destruct l as [|a [|b [|c l]]]; simpl in Hl; try lia. reflexivity.
  - destruct l as [|a l]; simpl in Hl; [lia|].
    simpl. apply IH. lia.
Qed.

Lemma length_dropna_le (s : Series) : (length (dropna s) <= length s)%nat.
Proof. apply filter_length_le. Qed.

Lemma rolling_mean_cells (ds : list Q) (i : nat) :
  (i < length ds)%nat ->
  nth_error (rolling_mean 3 (of_rationals ds)) i =
  Some (if (i <? 2)%nat then NaN
        else Fin ((nth (i - 2) ds 0 + (nth (i - 1) ds 0 + (nth i ds 0 + 0)))
                  / inject_Z 3)).
Proof.
  intros Hi. unfold rolling_mean.
  replace (map inf_to_nan (of_rationals ds)) with (of_rationals ds)
    by (unfold of_rationals; rewrite map_map; reflexivity).
  rewrite nth_error_map, nth_error_seq, length_of_rationals.
  destruct (Nat.ltb_spec i (length ds)) as [_|]; [|lia].
  simpl option_map. f_equal.
  destruct (Nat.ltb_spec i 2) as [H2|H2].
  - assert (Hlen : (length (dropna (window_at 3 i (of_rationals ds))) < 3)%nat).
    { eapply Nat.le_lt_trans; [apply length_dropna_le|].
      unfold window_at. rewrite length_firstn. lia. }
    apply Nat.ltb_lt in Hlen. rewrite Hlen. reflexivity.
  - unfold window_at.
    replace (i + 1 - 3)%nat with (i - 2)%nat by lia.
    replace (i + 1 - (i - 2))%nat with 3%nat by lia.
    unfold of_rationals. rewrite skipn_map, firstn_map.
    rewrite firstn3_skipn by lia.
    replace (i - 2 + 1)%nat with (i - 1)%nat by lia.
    replace (i - 2 + 2)%nat with i by lia.
    reflexivity.
Qed.

Lemma length_rolling_mean (w : nat) (s : Series) :
  length (rolling_mean w s) = length s.
Proof. unfold rolling_mean. rewrite length_map, length_seq. reflexivity. Qed.

Lemma tma_column_cells (ds : list Q) (i : nat) :
  (i < length ds)%nat ->
  nth_error (shift 1 (rolling_mean 3 (of_rationals ds))) i =
  Some (if (i <? 3)%nat then NaN
        else Fin ((nth (i - 3) ds 0 + (nth (i - 2) ds 0 + (nth (i - 1) ds 0 + 0)))
                  / inject_Z 3)).
Proof.
  intros Hi.
  rewrite nth_error_shift
    by (rewrite length_rolling_mean, length_of_rationals; exact Hi).
  destruct (Nat.ltb_spec i 1) as [H1|H1].
  - destruct (Nat.ltb_spec i 3); [reflexivity | lia].
  - rewrite rolling_mean_cells by lia.
    destruct (Nat.ltb_spec (i - 1) 2), (Nat.ltb_spec i 3); try lia; [reflexivity|].
    replace (i - 1 - 2)%nat with (i - 3)%nat by lia.
    replace (i - 1 - 1)%nat with (i - 2)%nat by lia.
    reflexivity.
Qed.

Lemma length_tma_column (ds : list Q) :
  length (shift 1 (rolling_mean 3 (of_rationals ds))) = length ds.
Proof.
  rewrite length_shift, length_rolling_mean. apply length_of_rationals.
Qed.

Lemma tma_column_count (ds : list Q) :
  count (shift 1 (rolling_mean 3 (of_rationals ds))) = (length ds - 3)%nat.
Proof.
  rewrite (count_nan_prefix _ 3), length_tma_column; [reflexivity|].
  intros i v Hi.
  assert (Hlt : (i < length ds)%nat).
  { rewrite <- (length_tma_column ds). apply nth_error_Some. congruence. }
  rewrite (tma_column_cells ds i Hlt) in Hi. injection Hi as <-.
  destruct (i <? 3)%nat; reflexivity.
Qed.

(** C7.  On a table whose [Demand] column holds the [n] numbers [ds],
    [three_weeks_moving_average] succeeds and its [ThreeWeeksMA] column has
    [n] cells: the mean of [demand[i-3 .. i-1]] for every [i >= 3], NaN for
    [i < 3], and so [n-3] defined cells ([0] when [n < 3]: the subtraction
    on [nat] stops at [0]). *)
Theorem three_weeks_moving_average_window (df : DataFrame) (ds : list Q) :
  wf df ->
  get_col "Demand" (columns df) = Some (of_rationals ds) ->
  exists df' col,
    three_weeks_moving_average df = Ok df' /\
    get_col "ThreeWeeksMA" (columns df') = Some col /\
    length col = length ds /\
    (forall i, (3 <= i < length ds)%nat ->
       exists m, nth_error col i = Some (Fin m) /\
                 m == (nth (i - 3) ds 0 + nth (i - 2) ds 0 + nth (i - 1) ds 0) / 3) /\
    (forall i, (i < 3)%nat -> (i < length ds)%nat -> nth_error col i = Some NaN) /\
    count col = (length ds - 3)%nat /\
    ((length ds < 3)%nat -> count col = 0%nat).
Proof.
  intros Hwf Hd.
  pose proof (wf_length df _ _ Hwf Hd) as Hn. rewrite length_of_rationals in Hn.
  unfold three_weeks_moving_average, getitem. rewrite Hd.
  exists (setitem_series "ThreeWeeksMA"
            (shift 1 (rolling_mean 3 (of_rationals ds))) df).
  exists (shift 1 (rolling_mean 3 (of_rationals ds))).
  split; [reflexivity|]. split.
  { simpl. rewrite get_set_col_eq. f_equal. apply align_same.
    rewrite length_tma_column. exact Hn. }
  split; [apply length_tma_column|].
  split; [|split; [|split]].
  - intros i [H1 H2]. rewrite (tma_column_cells ds i H2).
    destruct (Nat.ltb_spec i 3); [lia|].
    eexists. split; [reflexivity|].
    change (inject_Z 3) with 3. field.
  - intros i H1 H2. rewrite (tma_column_cells ds i H2).
    destruct (Nat.ltb_spec i 3); [reflexivity | lia].
  - apply tma_column_count.
  - intros H. rewrite tma_column_count. lia.
Qed.

Lemma three_weeks_moving_average_window_witness :
  exists df' col,
    three_weeks_moving_average example_df = Ok df' /\
    get_col "ThreeWeeksMA" (columns df') = Some col /\
    length col = length [10; 12; 11; 13] /\
    (forall i, (3 <= i < length [10; 12; 11; 13])%nat ->
       exists m, nth_error col i = Some (Fin m) /\
                 m == (nth (i - 3) [10; 12; 11; 13] 0
                       + nth (i - 2) [10; 12; 11; 13] 0
                       + nth (i - 1) [10; 12; 11; 13] 0) / 3) /\
    (forall i, (i < 3)%nat -> (i < length [10; 12; 11; 13])%nat ->
               nth_error col i = Some NaN) /\
    count col = (length [10; 12; 11; 13] - 3)%nat /\
    ((length [10; 12; 11; 13] < 3)%nat -> count col = 0%nat).
Proof.
  apply (three_weeks_moving_average_window example_df [10; 12; 11; 13]).
  - exact wf_example_df.
  - reflexivity.
Defined.

(** ** C1: exponential smoothing *)

Lemma loc_demand (df : DataFrame) (ds : list Q) (i : nat) :
  get_col "Demand" (columns df) = Some (of_rationals ds) ->
  (i < length ds)%nat ->
  loc df i "Demand" = Ok (Fin (nth i ds 0)).
Proof.
  intros Hd Hi. unfold loc, getitem. rewrite Hd. simpl.
  rewrite (nth_error_of_rationals ds i Hi). reflexivity.
Qed.

Lemma list_get_of_rationals (fs : list Q) (i : nat) :
  (i < length fs)%nat ->
  list_get (of_rationals fs) i = Ok (Fin (nth i fs 0)).
Proof.
  intros Hi. unfold list_get.
  rewrite (nth_error_of_rationals fs i Hi). reflexivity.
Qed.

Lemma es_inv_first (alpha : Q) (ds : list Q) :
  es_inv alpha ds [nth 0 ds 0].
Proof.
  split; [reflexivity|]. simpl. intros i Hi. lia.
Qed.

Lemma es_inv_step (alpha : Q) (ds fs : list Q) :
  (1 <= length fs)%nat ->
  es_inv alpha ds fs ->
  es_inv alpha ds
    (fs ++ [alpha * nth (length fs - 1) ds 0
            + (1 - alpha) * nth (length fs - 1) fs 0]).
Proof.
  intros Hlen [H0 Hrec]. split.
  - intros _. rewrite app_nth1 by lia. apply H0. lia.
  - intros i Hi. rewrite length_app in Hi. simpl in Hi.
    rewrite (app_nth1 fs _ 0 (n := i - 1)) by lia.
    destruct (Nat.eq_dec i (length fs)) as [->|Hne].
    + rewrite app_nth2 by lia. rewrite Nat.sub_diag. reflexivity.
    + rewrite app_nth1 by lia. apply Hrec. lia.
Qed.

Lemma es_loop_run (df : DataFrame) (alpha : Q) (ds : list Q) (m : nat) :
  get_col "Demand" (columns df) = Some (of_rationals ds) ->
  forall fs,
    (length fs + m <= length ds)%nat ->
    es_inv alpha ds fs ->
    exists fs',
      es_loop df alpha (seq (length fs) m) (of_rationals fs) = Ok (of_rationals fs') /\
      length fs' = (length fs + m)%nat /\
      es_inv alpha ds fs'.
Proof.
  intros Hd. induction m as [|m IH]; intros fs Hlen Hinv.
  - exists fs. simpl. repeat split; try apply Hinv. lia.
  - cbn [seq es_loop].
    destruct (Nat.eqb_spec (length fs) 0) as [Hz|Hz].
    + rewrite (loc_demand df ds _ Hd) by lia. cbn [bind].
      destruct fs; [|discriminate]. cbn [of_rationals map app].
      destruct (IH [nth 0 ds 0]) as (fs' & Hrun & Hl & Hi').
      { simpl in *. lia. }
      { apply es_inv_first. }
      exists fs'. split; [exact Hrun|]. split; [simpl in *; lia | exact Hi'].
    + rewrite (loc_demand df ds _ Hd) by lia. cbn [bind].
      rewrite list_get_of_rationals by lia. cbn [bind fmul fadd].
      set (x := alpha * nth (length fs - 1) ds 0
                + (1 - alpha) * nth (length fs - 1) fs 0).
      destruct (IH (fs ++ [x])) as (fs' & Hrun & Hl & Hi').
      { rewrite length_app. simpl. lia. }
      { apply es_inv_step; [lia | exact Hinv]. }
      exists fs'. rewrite length_app in Hrun, Hl. simpl in Hrun, Hl.
      rewrite Nat.add_1_r in Hrun.
      unfold of_rationals in *. rewrite map_app in Hrun.
      split; [exact Hrun|]. split; [lia | exact Hi'].
Qed.

Lemma count_of_rationals (l : list Q) : count (of_rationals l) = length l.
Proof.
  unfold count, of_rationals. rewrite dropna_Fin. apply length_map.
Qed.

(** The smoothing pass on a table with a numeric demand column. *)
Lemma exponential_smoothing_run (df : DataFrame) (ds : list Q) (alpha : Q) :
  wf df ->
  get_col "Demand" (columns df) = Some (of_rationals ds) ->
  exists fs,
    exponential_smoothing df alpha =
      Ok (mkDataFrame (nrows df)
            (set_col "ExponentialSmoothing" (of_rationals fs) (columns df))) /\
    length fs = length ds /\
    es_inv alpha ds fs.
Proof.
  intros Hwf Hd.
  pose proof (wf_length df _ _ Hwf Hd) as Hn. rewrite length_of_rationals in Hn.
  destruct (es_loop_run df alpha ds (nrows df) Hd []) as (fs & Hrun & Hl & Hinv).
  { simpl. lia. }
  { split; simpl; intros; lia. }
  exists fs. simpl in Hrun, Hl. unfold exponential_smoothing.
  rewrite Hrun. cbn [bind].
  unfold setitem_list. rewrite length_of_rationals, Hl, Nat.eqb_refl.
  split; [reflexivity|]. split; [lia | exact Hinv].
Qed.

(** C1 (as amended).  On a table whose [Demand] column holds [n >= 1]
    numbers, [exponential_smoothing] succeeds for every [alpha]; its column
    has [n] cells, all defined, with [forecast[0] = demand[0]] and
    [forecast[i] = alpha * demand[i-1] + (1 - alpha) * forecast[i-1]] for
    every [i >= 1].  For the demand 10, 12, 11, 13 and [alpha = 0.1] that
    column is 10, 10, 10.2, 10.28. *)
Theorem exponential_smoothing_recurrence (df : DataFrame) (ds : list Q) (alpha : Q) :
  wf df ->
  get_col "Demand" (columns df) = Some (of_rationals ds) ->
  (1 <= length ds)%nat ->
  exists df' fs,
    exponential_smoothing df alpha = Ok df' /\
    get_col "ExponentialSmoothing" (columns df') = Some (of_rationals fs) /\
    length fs = length ds /\
    count (of_rationals fs) = length ds /\
    nth 0 fs 0 = nth 0 ds 0 /\
    (forall i, (1 <= i < length ds)%nat ->
       nth i fs 0 = alpha * nth (i - 1) ds 0 + (1 - alpha) * nth (i - 1) fs 0) /\
    (ds = [10; 12; 11; 13] -> alpha = 1 # 10 ->
     series_eq (of_rationals fs) computed_es_column).
Proof.
  intros Hwf Hd Hn.
  destruct (exponential_smoothing_run df ds alpha Hwf Hd) as (fs & Hrun & Hl & H0 & Hrec).
  eexists. exists fs. split; [exact Hrun|]. cbn [columns].
  split; [apply get_set_col_eq|]. split; [exact Hl|].
  split; [rewrite count_of_rationals; exact Hl|].
  split; [apply H0; lia|].
  split; [intros i Hi; apply Hrec; lia|].
  intros -> ->. simpl in Hl.
  destruct fs as [|a [|b [|c [|d [|e fs]]]]]; try discriminate.
  assert (Ha : a = 10) by (apply H0; simpl; lia).
  pose proof (Hrec 1%nat ltac:(simpl; lia)) as Hb.
  pose proof (Hrec 2%nat ltac:(simpl; lia)) as Hc.
  pose proof (Hrec 3%nat ltac:(simpl; lia)) as Hd3.
  simpl in Hb, Hc, Hd3. subst a. subst b. subst c. subst d.
  apply series_eqb_spec. vm_compute. reflexivity.
Qed.

Lemma exponential_smoothing_recurrence_witness :
  exists df' fs,
    exponential_smoothing example_df (1 # 10) = Ok df' /\
    get_col "ExponentialSmoothing" (columns df') = Some (of_rationals fs) /\
    length fs = length [10; 12; 11; 13] /\
    count (of_rationals fs) = length [10; 12; 11; 13] /\
    nth 0 fs 0 = nth 0 [10; 12; 11; 13] 0 /\
    (forall i, (1 <= i < length [10; 12; 11; 13])%nat ->
       nth i fs 0 = (1 # 10) * nth (i - 1) [10; 12; 11; 13] 0
                    + (1 - (1 # 10)) * nth (i - 1) fs 0) /\
    ([10; 12; 11; 13] = [10; 12; 11; 13] -> 1 # 10 = 1 # 10 ->
     series_eq (of_rationals fs) computed_es_column).
Proof.
  apply (exponential_smoothing_recurrence example_df [10; 12; 11; 13] (1 # 10)).
  - exact wf_example_df.
  - reflexivity.
  - simpl. lia.
Defined.

(** On the documentation's example the smoothing column is not the one the
    documentation lists: its second cell is 10, not 10.2. *)
Lemma exponential_smoothing_example_differs :
  exists df' col,
    exponential_smoothing example_df (1 # 10) = Ok df' /\
    get_col "ExponentialSmoothing" (columns df') = Some col /\
    ~ series_eq col documented_es_column.
Proof.
  eexists. eexists. split; [reflexivity|]. split; [reflexivity|].
  rewrite <- series_eqb_spec. vm_compute. discriminate.
Qed.

(** ** Checking well-formedness by computation *)

Lemma nodupb_sound (l : list string) : nodupb l = true -> NoDup l.
Proof.
  induction l as [|x r IH]; simpl; [constructor|].
  rewrite andb_true_iff, negb_true_iff. intros [Hx Hr].
  constructor; [|auto].
  intros Hin. assert (existsb (String.eqb x) r = true); [|congruence].
  apply existsb_exists. exists x. split; [exact Hin | apply String.eqb_refl].
Qed.

Lemma wfb_sound (df : DataFrame) : wfb df = true -> wf df.
Proof.
  unfold wfb, wf. rewrite andb_true_iff, forallb_forall, List.Forall_forall.
  intros [Hn Hall]. split; [apply nodupb_sound; exact Hn|].
  intros c Hc. apply Nat.eqb_eq. auto.
Qed.

(** ** C2: MAD and MSE *)

Lemma series_mean_dropna (s : Series) : series_mean s = mean_of (dropna s).
Proof. unfold series_mean, mean_of. destruct (dropna s); reflexivity. Qed.

(** Skipping the NaN errors is skipping the undefined forecasts. *)
Lemma dropna_errors (g : fval -> fval) (ds : list Q) (fs : Series) :
  (forall d f, notna (g (fsub (Fin d) f)) = notna f) ->
  length fs = length ds ->
  dropna (map g (series_sub (of_rationals ds) fs)) =
  map (fun p => g (fsub (Fin (fst p)) (snd p))) (defined_pairs ds fs).
Proof.
  intros Hg. revert fs; induction ds as [|d ds IH]; intros [|f fs] Hlen;
    simpl in Hlen; try discriminate; [reflexivity|].
  injection Hlen as Hlen. unfold dropna, of_rationals in *.
  cbn [map series_sub filter defined_pairs].
  rewrite Hg. destruct (notna f); cbn [map fst snd];
    rewrite IH by exact Hlen; reflexivity.
Qed.

Lemma notna_abs_error (d : Q) (f : fval) : notna (fabs (fsub (Fin d) f)) = notna f.
Proof. destruct f; reflexivity. Qed.

Lemma notna_pow2_error (d : Q) (f : fval) : notna (fpow2 (fsub (Fin d) f)) = notna f.
Proof. destruct f; reflexivity. Qed.

Lemma notna_error (d : Q) (f : fval) : notna (fsub (Fin d) f) = notna f.
Proof. destruct f; reflexivity. Qed.

Lemma fsum_of_rationals (l : list Q) : fsum (of_rationals l) = Fin (Qsum l).
Proof.
  induction l as [|q l IH]; [reflexivity|].
  unfold fsum, of_rationals in *. simpl. rewrite IH. reflexivity.
Qed.

Lemma Qeq_bool_length_pos (n : nat) :
  (0 < n)%nat -> Qeq_bool (inject_Z (Z.of_nat n)) 0 = false.
Proof.
  intros Hn. destruct (Qeq_bool _ _) eqn:E; [|reflexivity].
  apply Qeq_bool_iff in E. unfold Qeq in E. simpl in E. lia.
Qed.

Lemma series_mean_of_rationals (l : list Q) :
  l <> [] -> series_mean (of_rationals l) = Fin (Qmean l).
Proof.
  intros Hl. rewrite series_mean_dropna. unfold of_rationals.
  rewrite dropna_Fin. destruct l as [|q l]; [congruence|].
  unfold mean_of. cbn [map].
  change (Fin q :: map Fin l) with (of_rationals (q :: l)).
  rewrite fsum_of_rationals, length_of_rationals. unfold of_nat. cbn [fdiv].
  rewrite Qeq_bool_length_pos by (simpl; lia). reflexivity.
Qed.

Lemma mean_of_of_rationals (l : list Q) :
  l <> [] -> mean_of (of_rationals l) = Fin (Qmean l).
Proof.
  intros Hl. rewrite <- (series_mean_of_rationals l Hl), series_mean_dropna.
  unfold of_rationals. rewrite dropna_Fin. reflexivity.
Qed.

Lemma metrics_unfold (df : DataFrame) (forecast_col : string)
  (ds : list Q) (fs : Series) :
  wf df ->
  get_col "Demand" (columns df) = Some (of_rationals ds) ->
  get_col forecast_col (columns df) = Some fs ->
  mean_absolute_deviation df forecast_col = Ok (MAD_over_defined ds fs) /\
  mean_squared_error df forecast_col = Ok (MSE_over_defined ds fs).
Proof.
  intros Hwf Hd Hf.
  assert (Hlen : length fs = length ds).
  { rewrite (wf_length df _ _ Hwf Hf).
    rewrite <- (wf_length df _ _ Hwf Hd). apply length_of_rationals. }
  unfold mean_absolute_deviation, mean_squared_error, getitem.
  rewrite Hd, Hf. cbn [bind].
  rewrite !series_mean_dropna. unfold series_abs, series_pow2.
  rewrite (dropna_errors fabs ds fs notna_abs_error Hlen).
  rewrite (dropna_errors fpow2 ds fs notna_pow2_error Hlen).
  split; reflexivity.
Qed.

(** The errors of a column of numbers, each passed through [g]. *)
Lemma errors_of_cells (g : fval -> fval) (gq : Q -> Q) (ds : list Q)
  (qs : list (option Q)) :
  (forall e, g (Fin e) = Fin (gq e)) ->
  map (fun p => g (fsub (Fin (fst p)) (snd p))) (defined_pairs ds (cells qs))
  = of_rationals (map gq (errors_at_defined ds qs)).
Proof.
  intros Hg. revert qs; induction ds as [|d ds IH]; intros qs; [reflexivity|].
  destruct qs as [|[q|] qs]; [reflexivity| |].
  - cbn [cells map defined_pairs notna isna negb errors_at_defined fst snd
         of_rationals].
    unfold fsub. cbn [fopp fadd]. rewrite Hg. f_equal. apply IH.
  - cbn [cells map defined_pairs notna isna negb errors_at_defined]. apply IH.
Qed.

Lemma errors_of_cells_plain (ds : list Q) (qs : list (option Q)) :
  map (fun p => fsub (Fin (fst p)) (snd p)) (defined_pairs ds (cells qs))
  = of_rationals (errors_at_defined ds qs).
Proof.
  pose proof (errors_of_cells (fun v => v) (fun e => e) ds qs
                (fun e => eq_refl)) as H.
  rewrite map_id in H. exact H.
Qed.

Lemma mean_of_cells (l : list Q) :
  mean_of (of_rationals l) = match l with [] => NaN | _ => Fin (Qmean l) end.
Proof.
  destruct l as [|x l]; [reflexivity|]. apply mean_of_of_rationals. discriminate.
Qed.

(** C2.  On a table whose [Demand] column holds the numbers [ds], for
    every column [forecast_col] of the table, [mean_absolute_deviation] is
    the mean of [|demand[i] - forecast[i]|] and [mean_squared_error] the
    mean of [(demand[i] - forecast[i])^2], both over the indices where the
    forecast is defined only (the others are left out of the sum and of the
    count).  For a column of numbers and undefined cells this is, with
    [es] the list of the errors at the defined indices, the number
    [sum |e| / length es], respectively [sum e*e / length es], and NaN
    when no forecast is defined. *)
Theorem mad_mse_over_defined (df : DataFrame) (forecast_col : string)
  (ds : list Q) (fs : Series) :
  wf df ->
  get_col "Demand" (columns df) = Some (of_rationals ds) ->
  get_col forecast_col (columns df) = Some fs ->
  (mean_absolute_deviation df forecast_col = Ok (MAD_over_defined ds fs) /\
   mean_squared_error df forecast_col = Ok (MSE_over_defined ds fs)) /\
  (forall qs, fs = cells qs ->
     (errors_at_defined ds qs = [] ->
      mean_absolute_deviation df forecast_col = Ok NaN /\
      mean_squared_error df forecast_col = Ok NaN) /\
     (errors_at_defined ds qs <> [] ->
      mean_absolute_deviation df forecast_col =
        Ok (Fin (Qsum (map Qabs (errors_at_defined ds qs))
                 / inject_Z (Z.of_nat (length (errors_at_defined ds qs))))) /\
      mean_squared_error df forecast_col =
        Ok (Fin (Qsum (map (fun e => e * e) (errors_at_defined ds qs))
                 / inject_Z (Z.of_nat (length (errors_at_defined ds qs))))))).
Proof.
  intros Hwf Hd Hf.
  destruct (metrics_unfold df forecast_col ds fs Hwf Hd Hf) as [Hmad Hmse].
  split; [split; assumption|].
  intros qs ->. rewrite Hmad, Hmse. unfold MAD_over_defined, MSE_over_defined.
  rewrite (errors_of_cells fabs Qabs ds qs) by reflexivity.
  rewrite (errors_of_cells fpow2 (fun e => e * e) ds qs) by reflexivity.
  rewrite !mean_of_cells. unfold Qmean. rewrite !length_map.
  destruct (errors_at_defined ds qs) as [|e es].
  - split; [intros _; split; reflexivity | congruence].
  - split; [discriminate | intros _; split; reflexivity].
Qed.

Lemma wf_example_scored : wf example_scored.
Proof. apply wfb_sound. vm_compute. reflexivity. Qed.

Lemma mad_mse_over_defined_witness :
  (mean_absolute_deviation example_scored "Naive" =
     Ok (MAD_over_defined [10; 12; 11; 13] (cells [None; Some 10; Some 12; Some 11])) /\
   mean_squared_error example_scored "Naive" =
     Ok (MSE_over_defined [10; 12; 11; 13] (cells [None; Some 10; Some 12; Some 11]))) /\
  (forall qs, cells [None; Some 10; Some 12; Some 11] = cells qs ->
     (errors_at_defined [10; 12; 11; 13] qs = [] ->
      mean_absolute_deviation example_scored "Naive" = Ok NaN /\
      mean_squared_error example_scored "Naive" = Ok NaN) /\
     (errors_at_defined [10; 12; 11; 13] qs <> [] ->
      mean_absolute_deviation example_scored "Naive" =
        Ok (Fin (Qsum (map Qabs (errors_at_defined [10; 12; 11; 13] qs))
                 / inject_Z (Z.of_nat (length (errors_at_defined [10; 12; 11; 13] qs))))) /\
      mean_squared_error example_scored "Naive" =
        Ok (Fin (Qsum (map (fun e => e * e) (errors_at_defined [10; 12; 11; 13] qs))
                 / inject_Z (Z.of_nat (length (errors_at_defined [10; 12; 11; 13] qs))))))).
Proof.
  apply (mad_mse_over_defined example_scored "Naive"
           [10; 12; 11; 13] (cells [None; Some 10; Some 12; Some 11])).
  - exact wf_example_scored.
  - reflexivity.
  - reflexivity.
Defined.

(** Leaving the undefined forecasts out is not counting them as zero: on
    the example the naive MAD is 5/3, the mean of the three errors 2, 1, 2,
    where a zero forecast in week 1 would give (10 + 2 + 1 + 2) / 4. *)
Example mad_example_skips_undefined :
  exists v, mean_absolute_deviation example_scored "Naive" = Ok (Fin v) /\
            v == 5 # 3 /\ ~ v == 15 # 4.
Proof.
  eexists. split; [vm_compute; reflexivity|].
  split; [reflexivity | discriminate].
Qed.

(** ** C3: the tracking signal *)

Lemma tracking_signal_unfold (df : DataFrame) (forecast_col : string)
  (ds : list Q) (fs : Series) :
  wf df ->
  get_col "Demand" (columns df) = Some (of_rationals ds) ->
  get_col forecast_col (columns df) = Some fs ->
  tracking_signal df forecast_col =
  Ok (if fne0 (MAD_over_defined ds fs)
      then fdiv (error_sum_over_defined ds fs) (MAD_over_defined ds fs)
      else NaN).
Proof.
  intros Hwf Hd Hf.
  assert (Hlen : length fs = length ds).
  { rewrite (wf_length df _ _ Hwf Hf).
    rewrite <- (wf_length df _ _ Hwf Hd). apply length_of_rationals. }
  unfold tracking_signal, getitem. rewrite Hd, Hf. cbn [bind].
  rewrite series_mean_dropna. unfold series_abs, series_sum.
  rewrite (dropna_errors fabs ds fs notna_abs_error Hlen).
  rewrite <- (map_id (series_sub (of_rationals ds) fs)) at 1.
  rewrite (dropna_errors (fun v => v) ds fs notna_error Hlen).
  reflexivity.
Qed.

Lemma fdiv_NaN_r (a : fval) : fdiv a NaN = NaN.
Proof. destruct a; reflexivity. Qed.

Lemma fadd_Fin_inv (a b : fval) (q : Q) :
  fadd a b = Fin q -> (exists x, a = Fin x) /\ (exists y, b = Fin y).
Proof.
  destruct a, b; simpl; intros H; try discriminate. split; eauto.
Qed.

(** A sum that is a number has only numbers in it. *)
Lemma fsum_Fin_inv (l : list fval) (q : Q) :
  fsum l = Fin q -> exists es, l = of_rationals es.
Proof.
  revert q; induction l as [|a l IH]; intros q H; [exists []; reflexivity|].
  unfold fsum in H. cbn [fold_right] in H.
  destruct (fadd_Fin_inv _ _ _ H) as [[x ->] [y Hy]].
  destruct (IH y Hy) as [es ->]. exists (x :: es). reflexivity.
Qed.

(** A MAD that is infinite comes with an error sum that is no number. *)
Lemma mean_abs_not_infinite (l : list fval) (q : Q) :
  fsum l = Fin q -> mean_of (map fabs l) = NaN \/ exists m, mean_of (map fabs l) = Fin m.
Proof.
  intros H. destruct (fsum_Fin_inv l q H) as [es ->].
  replace (map fabs (of_rationals es)) with (of_rationals (map Qabs es))
    by (unfold of_rationals; rewrite !map_map; reflexivity).
  rewrite mean_of_cells. destruct (map Qabs es); eauto.
Qed.

Lemma fdiv_by_infinity (a b : fval) :
  (b = PInf \/ b = NInf) -> (forall q, a <> Fin q) -> fdiv a b = NaN.
Proof.
  intros [-> | ->] Ha; destruct a as [| | |q]; try reflexivity;
    exfalso; apply (Ha q); reflexivity.
Qed.

(** C3.  On a table whose [Demand] column holds the numbers [ds], for
    every column [forecast_col] of the table, [tracking_signal] returns a
    value and raises nothing; when MAD is a nonzero number that value is the
    sum of [demand[i] - forecast[i]] over the indices where the forecast is
    defined, divided by MAD; when MAD is 0 it is NaN, the undefined value
    (and so neither an infinity nor an exception), and it is NaN too when
    MAD is no number.  For a column of numbers and undefined cells, with
    [es] the list of the errors at the defined indices, the signal is the
    number [sum e / (sum |e| / length es)] when [sum |e|] is not 0, and NaN
    when it is 0 or no forecast is defined. *)
Theorem tracking_signal_guarded (df : DataFrame) (forecast_col : string)
  (ds : list Q) (fs : Series) :
  wf df ->
  get_col "Demand" (columns df) = Some (of_rationals ds) ->
  get_col forecast_col (columns df) = Some fs ->
  exists ts,
    tracking_signal df forecast_col = Ok ts /\
    (forall m, MAD_over_defined ds fs = Fin m -> ~ m == 0 ->
       ts = fdiv (error_sum_over_defined ds fs) (Fin m) /\
       forall s, error_sum_over_defined ds fs = Fin s -> ts = Fin (s / m)) /\
    (forall m, MAD_over_defined ds fs = Fin m -> m == 0 ->
       ts = NaN /\ ts <> PInf /\ ts <> NInf) /\
    ((forall m, MAD_over_defined ds fs <> Fin m) -> ts = NaN) /\
    (forall qs, fs = cells qs ->
       (errors_at_defined ds qs = [] -> ts = NaN) /\
       (Qsum (map Qabs (errors_at_defined ds qs)) == 0 -> ts = NaN) /\
       (~ Qsum (map Qabs (errors_at_defined ds qs)) == 0 ->
        ts = Fin (Qsum (errors_at_defined ds qs)
                  / (Qsum (map Qabs (errors_at_defined ds qs))
                     / inject_Z (Z.of_nat (length (errors_at_defined ds qs))))))).
Proof.
  intros Hwf Hd Hf.
  rewrite (tracking_signal_unfold df forecast_col ds fs Hwf Hd Hf).
  eexists. split; [reflexivity|]. split; [|split; [|split]].
  - intros m Hm Hnz. rewrite Hm. cbn [fne0].
    destruct (Qeq_bool m 0) eqn:E.
    + apply Qeq_bool_iff in E. contradiction.
    + cbn [negb]. split; [reflexivity|].
      intros s ->. cbn [fdiv]. rewrite E. reflexivity.
  - intros m Hm Hz. rewrite Hm. cbn [fne0].
    apply Qeq_bool_iff in Hz. rewrite Hz. cbn [negb].
    repeat split; discriminate.
  - intros Hnot.
    destruct (MAD_over_defined ds fs) as [| | |m] eqn:E.
    + cbn [fne0]. apply fdiv_NaN_r.
    + cbn [fne0]. apply fdiv_by_infinity; [left; reflexivity|].
      intros q Hq. unfold MAD_over_defined, error_sum_over_defined in E, Hq.
      rewrite <- (map_map (fun p => fsub (Fin (fst p)) (snd p)) fabs) in E.
      destruct (mean_abs_not_infinite _ q Hq) as [H|[m H]]; congruence.
    + cbn [fne0]. apply fdiv_by_infinity; [right; reflexivity|].
      intros q Hq. unfold MAD_over_defined, error_sum_over_defined in E, Hq.
      rewrite <- (map_map (fun p => fsub (Fin (fst p)) (snd p)) fabs) in E.
      destruct (mean_abs_not_infinite _ q Hq) as [H|[m H]]; congruence.
    + exfalso. apply (Hnot m). reflexivity.
  - intros qs ->. unfold MAD_over_defined, error_sum_over_defined.
    rewrite (errors_of_cells fabs Qabs ds qs) by reflexivity.
    rewrite errors_of_cells_plain, fsum_of_rationals.
    destruct (errors_at_defined ds qs) as [|e es] eqn:E.
    + cbn [map of_rationals mean_of fne0].
      split; [intros _; apply fdiv_NaN_r|].
      split; [intros _; apply fdiv_NaN_r|].
      intros H. exfalso. apply H. reflexivity.
    + rewrite (mean_of_of_rationals (map Qabs (e :: es))) by discriminate.
      assert (Hk : ~ inject_Z (Z.of_nat (length (e :: es))) == 0).
      { apply Qeq_bool_neq. apply Qeq_bool_length_pos. simpl. lia. }
      unfold Qmean. rewrite length_map.
      set (A := Qsum (map Qabs (e :: es))) in *.
      set (k := inject_Z (Z.of_nat (length (e :: es)))) in *.
      assert (Hmean : A / k == 0 <-> A == 0).
      { split; intros H.
        - rewrite <- (Qmult_div_r A k Hk). rewrite H. ring.
        - unfold Qdiv. rewrite H. ring. }
      cbn [fne0]. split; [discriminate|]. split.
      * intros H. apply Hmean, Qeq_bool_iff in H. rewrite H. reflexivity.
      * intros H. destruct (Qeq_bool (A / k) 0) eqn:Eb.
        { exfalso. apply H, Hmean, Qeq_bool_iff. exact Eb. }
        cbn [negb fdiv]. rewrite Eb. reflexivity.
Qed.

Lemma tracking_signal_guarded_witness :
  exists ts,
    tracking_signal example_scored "Naive" = Ok ts /\
    (forall m, MAD_over_defined [10; 12; 11; 13]
                 (cells [None; Some 10; Some 12; Some 11]) = Fin m ->
       ~ m == 0 ->
       ts = fdiv (error_sum_over_defined [10; 12; 11; 13]
                    (cells [None; Some 10; Some 12; Some 11])) (Fin m) /\
       forall s, error_sum_over_defined [10; 12; 11; 13]
                   (cells [None; Some 10; Some 12; Some 11]) = Fin s ->
                 ts = Fin (s / m)) /\
    (forall m, MAD_over_defined [10; 12; 11; 13]
                 (cells [None; Some 10; Some 12; Some 11]) = Fin m ->
       m == 0 -> ts = NaN /\ ts <> PInf /\ ts <> NInf) /\
    ((forall m, MAD_over_defined [10; 12; 11; 13]
                  (cells [None; Some 10; Some 12; Some 11]) <> Fin m) -> ts = NaN) /\
    (forall qs, cells [None; Some 10; Some 12; Some 11] = cells qs ->
       (errors_at_defined [10; 12; 11; 13] qs = [] -> ts = NaN) /\
       (Qsum (map Qabs (errors_at_defined [10; 12; 11; 13] qs)) == 0 -> ts = NaN) /\
       (~ Qsum (map Qabs (errors_at_defined [10; 12; 11; 13] qs)) == 0 ->
        ts = Fin (Qsum (errors_at_defined [10; 12; 11; 13] qs)
                  / (Qsum (map Qabs (errors_at_defined [10; 12; 11; 13] qs))
                     / inject_Z (Z.of_nat
                                   (length (errors_at_defined [10; 12; 11; 13] qs))))))).
Proof.
  apply (tracking_signal_guarded example_scored "Naive"
           [10; 12; 11; 13] (cells [None; Some 10; Some 12; Some 11])).
  - exact wf_example_scored.
  - reflexivity.
  - reflexivity.
Defined.

(** On the example the naive errors are 2, -1, 2: the signal is
    3 / (5/3) = 9/5. *)
Example tracking_signal_example :
  exists t, tracking_signal example_scored "Naive" = Ok (Fin t) /\ t == 9 # 5.
Proof. eexists. split; [vm_compute; reflexivity | reflexivity]. Qed.

(** The guard at work: a forecast that hits every demand has MAD 0 and
    error sum 0, and the signal is NaN. *)
Example tracking_signal_perfect_forecast :
  tracking_signal
    (mkDataFrame 2 [("Week", of_rationals [1; 2]);
                    ("Demand", of_rationals [7; 7]);
                    ("Naive", [NaN; Fin 7])]) "Naive" = Ok NaN.
Proof. reflexivity. Qed.

(** ** C9: an unknown criterion *)

Lemma forecast_col_listed (df : DataFrame) (name : string) :
  In name (column_names df) -> name <> "Week" -> name <> "Demand" ->
  In name (forecast_cols_of df).
Proof.
  intros Hin Hw Hd. unfold forecast_cols_of. apply filter_In. split; [exact Hin|].
  simpl. apply String.eqb_neq in Hw, Hd. rewrite Hw, Hd. reflexivity.
Qed.

Lemma errors_loop_unknown (df : DataFrame) (method : string)
  (col : string) (rest : list string) (errors : list (string * fval)) :
  method <> "MAD" -> method <> "MSE" ->
  errors_loop df method (col :: rest) errors =
  Err (ValueError "Method must be 'MAD' or 'MSE'").
Proof.
  intros Hmad Hmse. apply String.eqb_neq in Hmad, Hmse.
  cbn [errors_loop]. rewrite Hmad, Hmse. reflexivity.
Qed.

(** C9.  On a table that holds the three forecast columns, [best_forecast]
    with a criterion that is neither "MAD" nor "MSE" raises [ValueError];
    the function has no handler, so the exception is its outcome and no
    pair is returned. *)
Theorem best_forecast_unknown_criterion (df : DataFrame) (method : string) :
  In "Naive" (column_names df) ->
  In "ThreeWeeksMA" (column_names df) ->
  In "ExponentialSmoothing" (column_names df) ->
  method <> "MAD" -> method <> "MSE" ->
  best_forecast df method = Err (ValueError "Method must be 'MAD' or 'MSE'") /\
  (forall best, best_forecast df method <> Ok best).
Proof.
  intros Hn _ _ Hmad Hmse.
  assert (H : best_forecast df method =
              Err (ValueError "Method must be 'MAD' or 'MSE'")).
  { unfold best_forecast.
    pose proof (forecast_col_listed df "Naive" Hn) as Hin.
    destruct (forecast_cols_of df) as [|col rest].
    - exfalso. apply Hin; discriminate.
    - rewrite errors_loop_unknown by assumption. reflexivity. }
  split; [exact H|]. intros best. rewrite H. discriminate.
Qed.

Lemma best_forecast_unknown_criterion_witness :
  best_forecast example_scored "RMSE" =
    Err (ValueError "Method must be 'MAD' or 'MSE'") /\
  (forall best, best_forecast example_scored "RMSE" <> Ok best).
Proof.
  apply (best_forecast_unknown_criterion example_scored "RMSE").
  - vm_compute. tauto.
  - vm_compute. tauto.
  - vm_compute. tauto.
  - discriminate.
  - discriminate.
Defined.

(** ** C10: what a forecast pass changes *)

Lemma set_col_lengths (n : nat) (name : string) (s : Series)
  (cols : list (string * Series)) :
  length s = n ->
  Forall (fun c => length (snd c) = n) cols ->
  Forall (fun c => length (snd c) = n) (set_col name s cols).
Proof.
  intros Hs. induction 1 as [|[k v] r Hc Hr IH]; simpl.
  - constructor; [exact Hs | constructor].
  - destruct (String.eqb k name); constructor; auto.
Qed.

Lemma set_col_NoDup (name : string) (s : Series) (cols : list (string * Series)) :
  NoDup (map fst cols) -> NoDup (map fst (set_col name s cols)).
Proof.
  intros Hnd. rewrite set_col_names.
  destruct (existsb (String.eqb name) (map fst cols)) eqn:E; [exact Hnd|].
  apply NoDup_app; [exact Hnd | repeat constructor; simpl; tauto |].
  intros a Ha [->|[]].
  assert (existsb (String.eqb a) (map fst cols) = true); [|congruence].
  apply existsb_exists. exists a. split; [exact Ha | apply String.eqb_refl].
Qed.

(** Assigning one column of the right length. *)
Lemma set_col_frame (df : DataFrame) (own : string) (s : Series) :
  wf df -> length s = nrows df ->
  let df' := mkDataFrame (nrows df) (set_col own s (columns df)) in
  wf df' /\
  nrows df' = nrows df /\
  (forall name, name <> own ->
     get_col name (columns df') = get_col name (columns df)) /\
  column_names df' =
    (if existsb (String.eqb own) (column_names df) then column_names df
     else column_names df ++ [own]).
Proof.
  intros [Hnd Hall] Hs df'. split; [split|split; [|split]].
  - apply set_col_NoDup. exact Hnd.
  - apply set_col_lengths; assumption.
  - reflexivity.
  - intros name Hne. apply get_set_col_ne. exact Hne.
  - apply set_col_names.
Qed.

Lemma es_loop_total (df : DataFrame) (alpha : Q) (d : Series) (m : nat) :
  get_col "Demand" (columns df) = Some d ->
  forall forecasts,
    (length forecasts + m <= length d)%nat ->
    exists out,
      es_loop df alpha (seq (length forecasts) m) forecasts = Ok out /\
      length out = (length forecasts + m)%nat.
Proof.
  intros Hd. induction m as [|m IH]; intros forecasts Hlen.
  - exists forecasts. split; [reflexivity | lia].
  - cbn [seq es_loop]. unfold loc, getitem, list_get. rewrite Hd. cbn [bind].
    assert (Hstep : forall v,
      exists out, es_loop df alpha (seq (S (length forecasts)) m) (forecasts ++ [v]) = Ok out /\
                  length out = (length forecasts + S m)%nat).
    { intros v. destruct (IH (forecasts ++ [v])) as (out & Hrun & Hl).
      - rewrite length_app. simpl. lia.
      - rewrite length_app in Hrun, Hl. simpl in Hrun, Hl.
        rewrite Nat.add_1_r in Hrun. exists out. split; [exact Hrun | lia]. }
    destruct (Nat.eqb_spec (length forecasts) 0) as [Hz|Hz].
    + destruct (nth_error d (length forecasts)) as [v|] eqn:E.
      * cbn [bind]. apply Hstep.
      * apply nth_error_None in E. lia.
    + destruct (nth_error d (length forecasts - 1)) as [v|] eqn:E.
      2:{ apply nth_error_None in E. lia. }
      cbn [bind].
      destruct (nth_error forecasts (length forecasts - 1)) as [f|] eqn:E2.
      2:{ apply nth_error_None in E2. lia. }
      cbn [bind]. apply Hstep.
Qed.

(** C10.  A forecast pass handed a reference to a well-formed table with a
    [Demand] column returns that same reference, and in the heap only the
    table behind it has changed; in that table the number of rows and every
    column other than the pass's own ([Week] and [Demand] among them) are
    as before, and the column names keep their order, the pass's own name
    staying where it was or, when new, going last. *)
Theorem forecast_pass_frame (p : pass) (r : nat) (h : gmap nat DataFrame)
  (df : DataFrame) :
  h !! r = Some df ->
  wf df ->
  In "Demand" (column_names df) ->
  exists df',
    in_place (run_pass p) r h = Ok (r, <[r := df']> h) /\
    (forall r', r' <> r -> (<[r := df']> h) !! r' = h !! r') /\
    wf df' /\
    nrows df' = nrows df /\
    (forall name, name <> own_column p ->
       get_col name (columns df') = get_col name (columns df)) /\
    column_names df' =
      (if existsb (String.eqb (own_column p)) (column_names df)
       then column_names df
       else column_names df ++ [own_column p]).
Proof.
  intros Hr Hwf Hin.
  apply get_col_names in Hin. destruct Hin as [d Hd].
  pose proof (wf_length df _ _ Hwf Hd) as Hn.
  assert (Hgen : forall s, length s = nrows df ->
            run_pass p df = Ok (mkDataFrame (nrows df)
                                  (set_col (own_column p) s (columns df))) ->
            exists df',
              in_place (run_pass p) r h = Ok (r, <[r := df']> h) /\
              (forall r', r' <> r -> (<[r := df']> h) !! r' = h !! r') /\
              wf df' /\
              nrows df' = nrows df /\
              (forall name, name <> own_column p ->
                 get_col name (columns df') = get_col name (columns df)) /\
              column_names df' =
                (if existsb (String.eqb (own_column p)) (column_names df)
                 then column_names df
                 else column_names df ++ [own_column p])).
  { intros s Hs Hrun. eexists. unfold in_place. rewrite Hr, Hrun. cbn [bind].
    split; [reflexivity|]. split.
    - intros r' Hne. apply lookup_insert_ne. congruence.
    - apply set_col_frame; assumption. }
  destruct p as [| |alpha]; cbn [run_pass own_column] in *.
  - apply (Hgen (align (nrows df) (shift 1 d))); [apply length_align|].
    unfold naive_forecast, getitem. rewrite Hd. reflexivity.
  - apply (Hgen (align (nrows df) (shift 1 (rolling_mean 3 d))));
      [apply length_align|].
    unfold three_weeks_moving_average, getitem. rewrite Hd. reflexivity.
  - destruct (es_loop_total df alpha d (nrows df) Hd []) as (out & Hrun & Hl).
    { simpl. lia. }
    simpl in Hrun, Hl. apply (Hgen out Hl).
    unfold exponential_smoothing. rewrite Hrun. cbn [bind].
    unfold setitem_list. rewrite Hl, Nat.eqb_refl. reflexivity.
Qed.

Lemma forecast_pass_frame_witness :
  exists df',
    in_place (run_pass NaivePass) 7 {[ 7%nat := example_df ]} =
      Ok (7%nat, <[7%nat := df']> {[ 7%nat := example_df ]}) /\
    (forall r', r' <> 7%nat ->
       (<[7%nat := df']> {[ 7%nat := example_df ]} : gmap nat DataFrame) !! r'
       = ({[ 7%nat := example_df ]} : gmap nat DataFrame) !! r') /\
    wf df' /\
    nrows df' = nrows example_df /\
    (forall name, name <> own_column NaivePass ->
       get_col name (columns df') = get_col name (columns example_df)) /\
    column_names df' =
      (if existsb (String.eqb (own_column NaivePass)) (column_names example_df)
       then column_names example_df
       else column_names example_df ++ [own_column NaivePass]).
Proof.
  apply (forecast_pass_frame NaivePass 7 {[ 7%nat := example_df ]} example_df).
  - apply lookup_singleton_eq.
  - exact wf_example_df.
  - simpl. tauto.
Defined.

(** ** C5: the forecast for next week *)

Lemma last_of_rationals (l : list Q) :
  l <> [] -> last (of_rationals l) NaN = Fin (last l 0).
Proof.
  induction l as [|a l IH]; [congruence|]. intros _.
  destruct l as [|b l]; [reflexivity|].
  change (last (of_rationals (b :: l)) NaN = Fin (last (b :: l) 0)).
  apply IH. discriminate.
Qed.

Lemma iloc_last_of_rationals (l : list Q) :
  l <> [] -> iloc_last (of_rationals l) = Ok (Fin (last l 0)).
Proof.
  intros Hl. unfold iloc_last. rewrite <- (last_of_rationals l Hl).
  destruct l; [congruence | reflexivity].
Qed.

(** The running maximum over numbers. *)
Lemma fold_fmax_of_rationals (r : list Q) (x : Q) :
  exists m, fold_left fmax (of_rationals r) (Fin x) = Fin m /\
            In m (x :: r) /\ forall w, In w (x :: r) -> w <= m.
Proof.
  revert x; induction r as [|y r IH]; intros x.
  - exists x. simpl. split; [reflexivity|]. split; [tauto|].
    intros w [<-|[]]. apply Qle_refl.
  - cbn [of_rationals map fold_left]. unfold fmax at 2. cbn [flt].
    destruct (x ?= y) eqn:E.
    + destruct (IH x) as (m & Hm & Hin & Hle). exists m.
      split; [exact Hm|]. split; [simpl in *; tauto|].
      intros w [<-|[<-|Hw]].
      * apply Hle. left. reflexivity.
      * apply Qeq_alt in E. rewrite <- E. apply Hle. left. reflexivity.
      * apply Hle. right. exact Hw.
    + destruct (IH y) as (m & Hm & Hin & Hle). exists m.
      split; [exact Hm|]. split; [simpl in *; tauto|].
      intros w [<-|[<-|Hw]].
      * apply Qlt_alt in E. apply Qle_trans with y; [apply Qlt_le_weak; exact E|].
        apply Hle. left. reflexivity.
      * apply Hle. left. reflexivity.
      * apply Hle. right. exact Hw.
    + destruct (IH x) as (m & Hm & Hin & Hle). exists m.
      split; [exact Hm|]. split; [simpl in *; tauto|].
      intros w [<-|[<-|Hw]].
      * apply Hle. left. reflexivity.
      * apply Qgt_alt in E. apply Qle_trans with x; [apply Qlt_le_weak; exact E|].
        apply Hle. left. reflexivity.
      * apply Hle. right. exact Hw.
Qed.

Lemma series_max_of_rationals (ws : list Q) :
  ws <> [] ->
  exists m, series_max (of_rationals ws) = Fin m /\
            In m ws /\ forall w, In w ws -> w <= m.
Proof.
  intros Hws. destruct ws as [|x r]; [congruence|].
  unfold series_max, of_rationals. rewrite dropna_Fin. cbn [map].
  apply fold_fmax_of_rationals.
Qed.

Lemma iloc_tail_of_rationals (ds : list Q) :
  iloc_tail 3 (of_rationals ds) = of_rationals (last3 ds).
Proof.
  unfold iloc_tail, last3. rewrite length_of_rationals.
  unfold of_rationals. apply skipn_map.
Qed.

Lemma last3_nonempty (ds : list Q) : ds <> [] -> last3 ds <> [].
Proof.
  intros Hds Hnil. apply (f_equal (@length Q)) in Hnil.
  unfold last3 in Hnil. rewrite length_skipn in Hnil. simpl in Hnil.
  destruct ds; [congruence|]. simpl in Hnil. lia.
Qed.

Lemma nonempty_length (A : Type) (l : list A) : (1 <= length l)%nat -> l <> [].
Proof. destruct l; simpl; [lia | discriminate]. Qed.

Lemma is_int64_cell_spec (q : Q) :
  is_int64_cell (Fin q) = true <-> int64_number q.
Proof.
  unfold is_int64_cell, int64_number.
  rewrite !andb_true_iff, Qeq_bool_iff, Z.leb_le, Z.ltb_lt. split.
  - intros [[Hq Hlo] Hhi]. exists (Qfloor q). split; [exact Hq | lia].
  - intros (z & Hq & Hz).
    assert (Hf : Qfloor q = z) by (rewrite Hq; apply Qfloor_Z).
    rewrite Hf. split; [split; [exact Hq | lia] | lia].
Qed.

Lemma int64_column_spec (ws : list Q) :
  int64_column (of_rationals ws) = true <-> forall w, In w ws -> int64_number w.
Proof.
  unfold int64_column, of_rationals. rewrite forallb_forall. split.
  - intros H w Hw. apply is_int64_cell_spec. apply H. apply in_map. exact Hw.
  - intros H v Hv. apply in_map_iff in Hv. destruct Hv as (w & <- & Hw).
    apply is_int64_cell_spec. apply H. exact Hw.
Qed.

Lemma wrap_int64_small (z : Z) :
  (- 2 ^ 63 <= z < 2 ^ 63)%Z -> wrap_int64 z = z.
Proof. intros H. unfold wrap_int64. rewrite Z.mod_small by lia. lia. Qed.

(** The week the int64 addition gives. *)
Lemma int64_succ (wk : Q) :
  int64_number wk ->
  (wk < inject_Z (2 ^ 63 - 1) ->
   inject_Z (wrap_int64 (Qfloor wk + 1)) == wk + 1) /\
  (wk == inject_Z (2 ^ 63 - 1) ->
   inject_Z (wrap_int64 (Qfloor wk + 1)) == inject_Z (- 2 ^ 63)).
Proof.
  intros (z & Hq & Hz).
  assert (Hf : Qfloor wk = z) by (rewrite Hq; apply Qfloor_Z).
  rewrite Hf. split.
  - intros Hlt. rewrite Hq in Hlt. rewrite <- Zlt_Qlt in Hlt.
    rewrite wrap_int64_small by lia. rewrite inject_Z_plus, Hq. reflexivity.
  - intros Htop. rewrite Hq in Htop.
    apply (proj1 (inject_Z_injective _ _)) in Htop. rewrite Htop.
    reflexivity.
Qed.

(** The record that [forecast_next_week] returns. *)
Lemma forecast_next_week_run (df : DataFrame) (alpha : Q) (ws ds fs : list Q) :
  wf df ->
  get_col "Week" (columns df) = Some (of_rationals ws) ->
  get_col "Demand" (columns df) = Some (of_rationals ds) ->
  get_col "ExponentialSmoothing" (columns df) = Some (of_rationals fs) ->
  (1 <= nrows df)%nat ->
  exists wk,
    In wk ws /\ (forall w, In w ws -> w <= wk) /\
    forecast_next_week df alpha =
    Ok (mkDataFrame 1
          [("Week", [Fin (if int64_column (of_rationals ws)
                          then inject_Z (wrap_int64 (Qfloor wk + 1))
                          else wk + 1)]);
           ("Naive", [Fin (last ds 0)]);
           ("ThreeWeeksMA",
            [Fin (if (3 <=? length ds)%nat then Qmean (last3 ds) else Qmean ds)]);
           ("ExponentialSmoothing",
            [Fin (alpha * last ds 0 + (1 - alpha) * last fs 0)])]).
Proof.
  intros Hwf Hw Hd Hes Hn.
  pose proof (wf_length df _ _ Hwf Hw) as Hlw.
  pose proof (wf_length df _ _ Hwf Hd) as Hld.
  pose proof (wf_length df _ _ Hwf Hes) as Hlf.
  rewrite length_of_rationals in Hlw, Hld, Hlf.
  assert (Hws : ws <> []) by (apply nonempty_length; lia).
  assert (Hds : ds <> []) by (apply nonempty_length; lia).
  assert (Hfs : fs <> []) by (apply nonempty_length; lia).
  destruct (series_max_of_rationals ws Hws) as (wk & Hmax & Hin & Hle).
  exists wk. split; [exact Hin|]. split; [exact Hle|].
  unfold forecast_next_week, getitem. rewrite Hw, Hd, Hes. cbn [bind].
  rewrite (iloc_last_of_rationals ds Hds), (iloc_last_of_rationals fs Hfs).
  cbn [bind]. rewrite Hmax, <- Hld.
  rewrite iloc_tail_of_rationals.
  rewrite (series_mean_of_rationals (last3 ds)) by (apply last3_nonempty; exact Hds).
  rewrite (series_mean_of_rationals ds Hds).
  unfold scalar_add_one.
  destruct (int64_column (of_rationals ws)), (3 <=? length ds)%nat; reflexivity.
Qed.

(** C5 (as amended).  On a table of [n >= 1] rows with numeric [Week],
    [Demand] and [ExponentialSmoothing] columns, [forecast_next_week]
    returns one record with the columns [Week], [Naive], [ThreeWeeksMA],
    [ExponentialSmoothing].  Its week is the largest week plus 1, except
    at the top of int64: when every week is an integer that an int64 holds
    the column is int64, and the largest week [2^63 - 1] gives [-2^63].
    The other three values are the last demand; the mean of the last three
    demands when [n >= 3] (at [n = 3] too) and of all demands otherwise;
    and [alpha * demand[last] + (1 - alpha) * forecast[last]].  On the
    example table after the three passes, with [alpha = 0.1], the record is
    Week 5, Naive 13, ThreeWeeksMA 12, ExponentialSmoothing 10.552. *)
Theorem forecast_next_week_record (df : DataFrame) (alpha : Q)
  (ws ds fs : list Q) :
  wf df ->
  get_col "Week" (columns df) = Some (of_rationals ws) ->
  get_col "Demand" (columns df) = Some (of_rationals ds) ->
  get_col "ExponentialSmoothing" (columns df) = Some (of_rationals fs) ->
  (1 <= nrows df)%nat ->
  exists next wk week,
    forecast_next_week df alpha = Ok next /\
    nrows next = 1%nat /\
    columns next =
      [("Week", [Fin week]);
       ("Naive", [Fin (last ds 0)]);
       ("ThreeWeeksMA",
        [Fin (if (3 <=? length ds)%nat then Qmean (last3 ds) else Qmean ds)]);
       ("ExponentialSmoothing",
        [Fin (alpha * last ds 0 + (1 - alpha) * last fs 0)])] /\
    In wk ws /\ (forall w, In w ws -> w <= wk) /\
    ((forall w, In w ws -> int64_number w) ->
     (wk < inject_Z (2 ^ 63 - 1) -> week == wk + 1) /\
     (wk == inject_Z (2 ^ 63 - 1) -> week == inject_Z (- 2 ^ 63))) /\
    (~ (forall w, In w ws -> int64_number w) -> week == wk + 1) /\
    (df = example_scored -> alpha = 1 # 10 ->
     frame_eqb next computed_next_week = true).
Proof.
  intros Hwf Hw Hd Hes Hn.
  destruct (forecast_next_week_run df alpha ws ds fs Hwf Hw Hd Hes Hn)
    as (wk & Hin & Hle & Hrun).
  eexists. exists wk. eexists. split; [exact Hrun|].
  split; [reflexivity|]. split; [reflexivity|].
  split; [exact Hin|]. split; [exact Hle|].
  split; [|split].
  - intros Hint. rewrite (proj2 (int64_column_spec ws) Hint).
    apply int64_succ. apply Hint. exact Hin.
  - intros Hnot. destruct (int64_column (of_rationals ws)) eqn:E; [|reflexivity].
    exfalso. apply Hnot. apply int64_column_spec. exact E.
  - intros -> ->.
    assert (Hex : exists r, forecast_next_week example_scored (1 # 10) = Ok r /\
                            frame_eqb r computed_next_week = true).
    { eexists. split; [vm_compute; reflexivity | vm_compute; reflexivity]. }
    destruct Hex as (r & Hr & Heq). rewrite Hrun in Hr. injection Hr as <-.
    exact Heq.
Qed.

Lemma forecast_next_week_record_witness :
  exists next wk week,
    forecast_next_week example_scored (1 # 10) = Ok next /\
    nrows next = 1%nat /\
    columns next =
      [("Week", [Fin week]);
       ("Naive", [Fin (last [10; 12; 11; 13] 0)]);
       ("ThreeWeeksMA",
        [Fin (if (3 <=? length [10; 12; 11; 13])%nat
              then Qmean (last3 [10; 12; 11; 13]) else Qmean [10; 12; 11; 13])]);
       ("ExponentialSmoothing",
        [Fin ((1 # 10) * last [10; 12; 11; 13] 0
              + (1 - (1 # 10))
                * last [10; (1 # 10) * 10 + (1 - (1 # 10)) * 10;
                        (1 # 10) * 12
                        + (1 - (1 # 10)) * ((1 # 10) * 10 + (1 - (1 # 10)) * 10);
                        (1 # 10) * 11
                        + (1 - (1 # 10))
                          * ((1 # 10) * 12
                             + (1 - (1 # 10))
                               * ((1 # 10) * 10 + (1 - (1 # 10)) * 10))] 0)])] /\
    In wk [1; 2; 3; 4] /\ (forall w, In w [1; 2; 3; 4] -> w <= wk) /\
    ((forall w, In w [1; 2; 3; 4] -> int64_number w) ->
     (wk < inject_Z (2 ^ 63 - 1) -> week == wk + 1) /\
     (wk == inject_Z (2 ^ 63 - 1) -> week == inject_Z (- 2 ^ 63))) /\
    (~ (forall w, In w [1; 2; 3; 4] -> int64_number w) -> week == wk + 1) /\
    (example_scored = example_scored -> 1 # 10 = 1 # 10 ->
     frame_eqb next computed_next_week = true).
Proof.
  apply (forecast_next_week_record example_scored (1 # 10)
           [1; 2; 3; 4] [10; 12; 11; 13]).
  - exact wf_example_scored.
  - reflexivity.
  - reflexivity.
  - reflexivity.
  - simpl. lia.
Defined.

(** At the top of int64 the week wraps around. *)
Example forecast_next_week_wraps :
  exists next,
    forecast_next_week
      (mkDataFrame 1 [("Week", [Fin (inject_Z (2 ^ 63 - 1))]);
                      ("Demand", [Fin 10]);
                      ("ExponentialSmoothing", [Fin 10])]) (1 # 10) = Ok next /\
    get_col "Week" (columns next) = Some [Fin (inject_Z (- 2 ^ 63))].
Proof. eexists. split; [vm_compute; reflexivity | reflexivity]. Qed.

(** On the documentation's example the projected smoothing value is not
    the documented 11.0708. *)
Lemma forecast_next_week_example_differs :
  exists next,
    forecast_next_week example_scored (1 # 10) = Ok next /\
    frame_eqb next documented_next_week = false /\
    exists v, get_col "ExponentialSmoothing" (columns next) = Some [v] /\
              ~ feq v (Fin (110708 # 10000)).
Proof.
  eexists. split; [vm_compute; reflexivity|].
  split; [vm_compute; reflexivity|].
  eexists. split; [reflexivity|].
  rewrite <- feqb_spec. vm_compute. discriminate.
Qed.

(** ** The table after the three passes *)

Lemma setitem_series_frame (df : DataFrame) (own : string) (s : Series) :
  wf df -> length s = nrows df ->
  wf (setitem_series own s df) /\
  get_col own (columns (setitem_series own s df)) = Some s /\
  (forall name, name <> own ->
     get_col name (columns (setitem_series own s df)) = get_col name (columns df)).
Proof.
  intros Hwf Hs. unfold setitem_series. rewrite (align_same _ _ Hs).
  destruct (set_col_frame df own s Hwf Hs) as (Hwf' & _ & Hother & _).
  split; [exact Hwf'|]. split; [apply get_set_col_eq | exact Hother].
Qed.

Lemma apply_forecasts_columns (df : DataFrame) (ds : list Q) (alpha : Q) :
  wf df ->
  get_col "Demand" (columns df) = Some (of_rationals ds) ->
  exists df' fs,
    apply_forecasts df alpha = Ok df' /\
    wf df' /\
    get_col "Demand" (columns df') = Some (of_rationals ds) /\
    get_col "Naive" (columns df') = Some (shift 1 (of_rationals ds)) /\
    get_col "ThreeWeeksMA" (columns df') =
      Some (shift 1 (rolling_mean 3 (of_rationals ds))) /\
    get_col "ExponentialSmoothing" (columns df') = Some (of_rationals fs) /\
    length fs = length ds /\
    es_inv alpha ds fs.
Proof.
  intros Hwf Hd.
  pose proof (wf_length df _ _ Hwf Hd) as Hn. rewrite length_of_rationals in Hn.
  unfold apply_forecasts, naive_forecast, getitem. rewrite Hd. cbn [bind].
  set (df1 := setitem_series "Naive" (shift 1 (of_rationals ds)) df).
  destruct (setitem_series_frame df "Naive" (shift 1 (of_rationals ds)) Hwf)
    as (Hwf1 & Hn1 & Ho1).
  { rewrite length_shift, length_of_rationals. exact Hn. }
  fold df1 in Hwf1, Hn1, Ho1.
  assert (Hd1 : get_col "Demand" (columns df1) = Some (of_rationals ds)).
  { rewrite Ho1 by discriminate. exact Hd. }
  unfold three_weeks_moving_average, getitem. rewrite Hd1. cbn [bind].
  set (df2 := setitem_series "ThreeWeeksMA"
                (shift 1 (rolling_mean 3 (of_rationals ds))) df1).
  destruct (setitem_series_frame df1 "ThreeWeeksMA"
              (shift 1 (rolling_mean 3 (of_rationals ds))) Hwf1)
    as (Hwf2 & Hn2 & Ho2).
  { rewrite length_tma_column. exact Hn. }
  fold df2 in Hwf2, Hn2, Ho2.
  assert (Hd2 : get_col "Demand" (columns df2) = Some (of_rationals ds)).
  { rewrite Ho2 by discriminate. exact Hd1. }
  destruct (exponential_smoothing_run df2 ds alpha Hwf2 Hd2) as (fs & Hrun & Hl & Hinv).
  eexists. exists fs. split; [exact Hrun|].
  assert (Hlen : length (of_rationals fs) = nrows df2).
  { rewrite length_of_rationals, Hl. exact Hn. }
  destruct (set_col_frame df2 "ExponentialSmoothing" (of_rationals fs) Hwf2 Hlen)
    as (Hwf3 & _ & Ho3 & _).
  split; [exact Hwf3|].
  split; [rewrite Ho3 by discriminate; exact Hd2|].
  split; [rewrite Ho3, Ho2 by discriminate; exact Hn1|].
  split; [rewrite Ho3 by discriminate; exact Hn2|].
  split; [apply get_set_col_eq|].
  split; [exact Hl | exact Hinv].
Qed.

(** ** C8: a constant demand *)

Lemma Forall_nth_error (A : Type) (P : A -> Prop) (l : list A) :
  (forall i v, nth_error l i = Some v -> P v) -> Forall P l.
Proof.
  intros H. apply List.Forall_forall. intros x Hx.
  destruct (In_nth_error l x Hx) as [i Hi]. apply (H i x Hi).
Qed.

Lemma nth_repeat_lt (c : Q) (n i : nat) : (i < n)%nat -> nth i (repeat c n) 0 = c.
Proof.
  intros Hi. apply nth_error_nth. apply nth_error_repeat. exact Hi.
Qed.

Lemma defined_errors_zero (g : fval -> fval) (c : Q) (n : nat) (fs : Series) :
  (forall v, v == c -> feq (g (fsub (Fin c) (Fin v))) (Fin 0)) ->
  Forall (hits c) fs ->
  Forall (fun e => feq e (Fin 0))
    (map (fun p => g (fsub (Fin (fst p)) (snd p))) (defined_pairs (repeat c n) fs)).
Proof.
  intros Hg. revert fs; induction n as [|n IH]; intros fs Hfs; [constructor|].
  destruct fs as [|f fs]; [constructor|].
  inversion Hfs as [|? ? Hf Hrest]; subst.
  cbn [repeat defined_pairs].
  destruct f as [| | |v]; simpl in Hf; try contradiction.
  - cbn [notna isna negb]. apply IH. exact Hrest.
  - cbn [notna isna negb map fst snd]. constructor; [apply Hg; exact Hf|].
    apply IH. exact Hrest.
Qed.

Lemma fsum_zeros (l : list fval) :
  Forall (fun e => feq e (Fin 0)) l -> feq (fsum l) (Fin 0).
Proof.
  induction 1 as [|e l He Hl IH]; [simpl; reflexivity|].
  unfold fsum in *. cbn [fold_right].
  destruct e as [| | |z]; simpl in He; try contradiction.
  destruct (fold_right fadd (Fin 0) l) as [| | |s]; simpl in IH; try contradiction.
  simpl. rewrite He, IH. reflexivity.
Qed.

Lemma mean_of_zeros (l : list fval) :
  Forall (fun e => feq e (Fin 0)) l -> l <> [] -> feq (mean_of l) (Fin 0).
Proof.
  intros Hl Hne. pose proof (fsum_zeros l Hl) as Hs.
  destruct l as [|e l]; [congruence|]. unfold mean_of.
  destruct (fsum (e :: l)) as [| | |s]; simpl in Hs; try contradiction.
  unfold of_nat. cbn [fdiv].
  rewrite Qeq_bool_length_pos by (simpl; lia).
  simpl. unfold Qdiv. rewrite Hs. ring.
Qed.

Lemma length_defined_pairs (ds : list Q) (fs : Series) :
  length fs = length ds -> length (defined_pairs ds fs) = count fs.
Proof.
  revert fs; induction ds as [|d ds IH]; intros [|f fs] Hlen;
    simpl in Hlen; try discriminate; [reflexivity|].
  injection Hlen as Hlen. unfold count, dropna in *. cbn [defined_pairs filter].
  destruct (notna f); simpl; rewrite IH by exact Hlen; reflexivity.
Qed.

Lemma abs_error_zero (c v : Q) :
  v == c -> feq (fabs (fsub (Fin c) (Fin v))) (Fin 0).
Proof.
  intros H. unfold fsub. cbn [fopp fadd fabs feq].
  rewrite H. assert (E : c + - c == 0) by ring. rewrite E. reflexivity.
Qed.

Lemma pow2_error_zero (c v : Q) :
  v == c -> feq (fpow2 (fsub (Fin c) (Fin v))) (Fin 0).
Proof.
  intros H. unfold fpow2, fsub. cbn [fopp fadd fmul feq]. rewrite H. ring.
Qed.

Lemma error_zero (c v : Q) : v == c -> feq (fsub (Fin c) (Fin v)) (Fin 0).
Proof. intros H. unfold fsub. cbn [fopp fadd feq]. rewrite H. ring. Qed.

(** The scores of a column that hits a constant demand wherever it is
    defined. *)
Lemma constant_metrics (df : DataFrame) (c : Q) (n : nat)
  (method : string) (col : Series) :
  wf df ->
  get_col "Demand" (columns df) = Some (of_rationals (repeat c n)) ->
  get_col method (columns df) = Some col ->
  Forall (hits c) col ->
  exists mad mse,
    mean_absolute_deviation df method = Ok mad /\
    mean_squared_error df method = Ok mse /\
    ((1 <= count col)%nat -> feq mad (Fin 0) /\ feq mse (Fin 0)) /\
    (count col = 0%nat -> mad = NaN /\ mse = NaN) /\
    tracking_signal df method = Ok NaN.
Proof.
  intros Hwf Hd Hc Hhits.
  destruct (metrics_unfold df method _ col Hwf Hd Hc) as [Hmad Hmse].
  rewrite (tracking_signal_unfold df method _ col Hwf Hd Hc).
  assert (Hlen : length col = length (repeat c n)).
  { rewrite (wf_length df _ _ Hwf Hc), <- (wf_length df _ _ Hwf Hd).
    apply length_of_rationals. }
  pose proof (length_defined_pairs _ col Hlen) as Hcount.
  pose proof (defined_errors_zero fabs c n col (abs_error_zero c) Hhits) as Habs.
  pose proof (defined_errors_zero fpow2 c n col (pow2_error_zero c) Hhits) as Hsq.
  exists (MAD_over_defined (repeat c n) col), (MSE_over_defined (repeat c n) col).
  split; [exact Hmad|]. split; [exact Hmse|].
  unfold MAD_over_defined, MSE_over_defined in *.
  destruct (defined_pairs (repeat c n) col) as [|p l] eqn:E.
  - simpl in Hcount. split; [intros; lia|]. split; [intros; split; reflexivity|].
    cbn [map mean_of fne0]. rewrite fdiv_NaN_r. reflexivity.
  - simpl in Hcount. split; [|split; [intros; lia|]].
    + intros _. split; apply mean_of_zeros; try assumption; discriminate.
    + pose proof (mean_of_zeros _ Habs ltac:(discriminate)) as Hz.
      destruct (mean_of _) as [| | |m]; simpl in Hz; try contradiction.
      cbn [fne0]. apply Qeq_bool_iff in Hz. rewrite Hz. reflexivity.
Qed.

Lemma naive_hits (c : Q) (n : nat) :
  Forall (hits c) (shift 1 (of_rationals (repeat c n))).
Proof.
  apply Forall_nth_error. intros i v Hi.
  assert (Hlt : (i < length (repeat c n))%nat).
  { rewrite <- (length_of_rationals (repeat c n)), <- (length_shift 1).
    apply nth_error_Some. congruence. }
  rewrite (naive_column_cells _ i Hlt) in Hi. injection Hi as <-.
  rewrite repeat_length in Hlt.
  destruct (i <? 1)%nat; simpl; [exact I|].
  rewrite nth_repeat_lt by lia. reflexivity.
Qed.

Lemma tma_hits (c : Q) (n : nat) :
  Forall (hits c) (shift 1 (rolling_mean 3 (of_rationals (repeat c n)))).
Proof.
  apply Forall_nth_error. intros i v Hi.
  assert (Hlt : (i < length (repeat c n))%nat).
  { rewrite <- (length_tma_column (repeat c n)).
    apply nth_error_Some. congruence. }
  rewrite (tma_column_cells _ i Hlt) in Hi. injection Hi as <-.
  rewrite repeat_length in Hlt.
  destruct (Nat.ltb_spec i 3); simpl; [exact I|].
  rewrite !nth_repeat_lt by lia. change (inject_Z 3) with 3. field.
Qed.

Lemma es_cells_constant (alpha c : Q) (n : nat) (fs : list Q) :
  length fs = n -> es_inv alpha (repeat c n) fs ->
  forall i, (i < n)%nat -> nth i fs 0 == c.
Proof.
  intros Hl [H0 Hrec] i. induction i as [|i IH]; intros Hi.
  - rewrite H0 by lia. rewrite nth_repeat_lt by lia. reflexivity.
  - rewrite Hrec by lia. replace (S i - 1)%nat with i by lia.
    rewrite nth_repeat_lt by lia. rewrite IH by lia. ring.
Qed.

Lemma es_hits (alpha c : Q) (n : nat) (fs : list Q) :
  length fs = n -> es_inv alpha (repeat c n) fs ->
  Forall (hits c) (of_rationals fs).
Proof.
  intros Hl Hinv. apply Forall_nth_error. intros i v Hi.
  assert (Hlt : (i < length fs)%nat).
  { rewrite <- (length_of_rationals fs). apply nth_error_Some. congruence. }
  rewrite (nth_error_of_rationals fs i Hlt) in Hi. injection Hi as <-.
  simpl. apply (es_cells_constant alpha c n fs Hl Hinv). lia.
Qed.

Lemma constant_scores_of (df : DataFrame) (c : Q) (n : nat)
  (method : string) (col : Series) (defined : nat) :
  wf df ->
  get_col "Demand" (columns df) = Some (of_rationals (repeat c n)) ->
  get_col method (columns df) = Some col ->
  Forall (hits c) col ->
  count col = defined ->
  constant_scores df c method defined.
Proof.
  intros Hwf Hd Hc Hhits Hcount.
  destruct (constant_metrics df c n method col Hwf Hd Hc Hhits)
    as (mad & mse & Hmad & Hmse & Hpos & Hzero & Hts).
  exists col, mad, mse. rewrite Hcount in Hpos, Hzero. tauto.
Qed.

(** C8 (as amended).  On a table whose demand is the constant [c] in each
    of its [n] weeks, after the three passes the [Naive] column is [c]
    wherever it is defined and has [n - 1] defined cells; for [n >= 2] the
    naive MAD and MSE are 0, for [n <= 1] they are NaN, and the naive
    tracking signal is NaN in both cases.  When [n <= 3] the
    [ThreeWeeksMA] column has no defined cell, and its MAD, MSE and
    tracking signal are NaN.  (Nothing is said of the smoothing column,
    whose cells are [c] only up to the rounding of binary64, nor of the
    moving average for [n >= 4], whose cells depend on how pandas rounds
    its running mean.) *)
Theorem constant_demand_scores (df : DataFrame) (c alpha : Q) (n : nat) :
  wf df ->
  get_col "Demand" (columns df) = Some (of_rationals (repeat c n)) ->
  exists df',
    apply_forecasts df alpha = Ok df' /\
    constant_scores df' c "Naive" (n - 1) /\
    ((n <= 3)%nat -> constant_scores df' c "ThreeWeeksMA" 0).
Proof.
  intros Hwf Hd.
  destruct (apply_forecasts_columns df _ alpha Hwf Hd)
    as (df' & fs & Hrun & Hwf' & Hd' & Hnaive & Htma & _).
  exists df'. split; [exact Hrun|]. split.
  - apply (constant_scores_of df' c n _ _ _ Hwf' Hd' Hnaive (naive_hits c n)).
    rewrite naive_column_count, repeat_length. reflexivity.
  - intros Hn.
    apply (constant_scores_of df' c n _ _ _ Hwf' Hd' Htma (tma_hits c n)).
    rewrite tma_column_count, repeat_length. lia.
Qed.

Lemma constant_demand_scores_witness :
  exists df',
    apply_forecasts (constant_df 13 3) (1 # 10) = Ok df' /\
    constant_scores df' 13 "Naive" (3 - 1) /\
    ((3 <= 3)%nat -> constant_scores df' 13 "ThreeWeeksMA" 0).
Proof.
  apply (constant_demand_scores (constant_df 13 3) 13 (1 # 10) 3).
  - apply wfb_sound. vm_compute. reflexivity.
  - reflexivity.
Defined.

(** In binary64 the smoothing of a constant demand drifts off the
    constant: with [alpha = 0.1] and the demand 13 one turn of the
    recurrence gives 13.000000000000002 (the literals below are the
    binary64 numbers nearest to 0.1 and to 13.000000000000002). *)
Example constant_demand_binary64_drift :
  smoothing_step_binary64 0x1.999999999999ap-4 13 13 = 0x1.a000000000001p+3%float /\
  PrimFloat.eqb (smoothing_step_binary64 0x1.999999999999ap-4 13 13) 13 = false.
Proof. split; vm_compute; reflexivity. Qed.

(** Three weeks of constant demand: the moving average has no defined
    forecast, and its MAD and MSE are NaN, not 0. *)
Lemma constant_demand_short_series :
  exists df',
    apply_forecasts (constant_df 7 3) (1 # 10) = Ok df' /\
    mean_absolute_deviation df' "ThreeWeeksMA" = Ok NaN /\
    mean_squared_error df' "ThreeWeeksMA" = Ok NaN /\
    ~ feq NaN (Fin 0).
Proof.
  eexists. split; [vm_compute; reflexivity|].
  split; [reflexivity|]. split; [reflexivity|]. simpl. tauto.
Qed.

(** ** C4: the best forecast *)

Lemma flt_Fin_true (x y : Q) : flt (Fin x) (Fin y) = true <-> x < y.
Proof.
  simpl. rewrite Qlt_alt. destruct (x ?= y); split; congruence.
Qed.

Lemma flt_Fin_false (x y : Q) : flt (Fin x) (Fin y) = false <-> y <= x.
Proof.
  rewrite <- not_true_iff_false, flt_Fin_true. split.
  - apply Qnot_lt_le.
  - apply Qle_not_lt.
Qed.

Lemma flt_irrefl (a : fval) : flt a a = false.
Proof.
  destruct a as [| | |x]; try reflexivity.
  apply flt_Fin_false. apply Qle_refl.
Qed.

Lemma flt_notna (a b : fval) : flt a b = true -> notna a = true /\ notna b = true.
Proof. destruct a, b; simpl; intros H; try discriminate; split; reflexivity. Qed.

Lemma flt_asym (a b : fval) : flt a b = true -> flt b a = false.
Proof.
  destruct a as [| | |x], b as [| | |y]; try (cbv [notna isna negb]; simpl; intros; congruence).
  rewrite flt_Fin_true, flt_Fin_false. apply Qlt_le_weak.
Qed.

(** [b <= k < best] gives [b < best]. *)
Lemma flt_le_lt (b k best : fval) :
  notna b = true -> flt k b = false -> flt k best = true -> flt b best = true.
Proof.
  destruct b as [| | |x], k as [| | |y], best as [| | |z];
    try (cbv [notna isna negb]; simpl; intros; congruence).
  rewrite flt_Fin_false, !flt_Fin_true. intros _ H1 H2.
  eapply Qle_lt_trans; eassumption.
Qed.

(** [b < best <= k] gives [b < k]. *)
Lemma flt_lt_le (b best k : fval) :
  notna k = true -> flt b best = true -> flt k best = false -> flt b k = true.
Proof.
  destruct b as [| | |x], k as [| | |y], best as [| | |z];
    try (cbv [notna isna negb]; simpl; intros; congruence).
  rewrite flt_Fin_false, !flt_Fin_true. intros _ H1 H2.
  eapply Qlt_le_trans; eassumption.
Qed.

(** What [min] returns when the key of its first candidate is defined:
    the first key that no other key is below. *)
Lemma min_loop_first_minimum (key : string -> fval) (ks : list string) :
  forall best,
    notna (key best) = true ->
    exists before after,
      best :: ks = before ++ min_loop key best ks :: after /\
      notna (key (min_loop key best ks)) = true /\
      (forall k, In k (best :: ks) -> flt (key k) (key (min_loop key best ks)) = false) /\
      (forall k, In k before ->
         isna (key k) = true \/ flt (key (min_loop key best ks)) (key k) = true).
Proof.
  induction ks as [|k r IH]; intros best Hbest.
  - exists [], []. cbn [min_loop]. split; [reflexivity|]. split; [exact Hbest|].
    split; [|intros k []].
    intros k [<-|[]]. apply flt_irrefl.
  - cbn [min_loop]. destruct (flt (key k) (key best)) eqn:E.
    + destruct (flt_notna _ _ E) as [Hk _].
      destruct (IH k Hk) as (before & after & Hsplit & Hna & Hmin & Hbefore).
      set (b := min_loop key k r) in *.
      assert (Hb : flt (key b) (key best) = true).
      { apply (flt_le_lt _ (key k)); [exact Hna | | exact E].
        apply Hmin. left. reflexivity. }
      exists (best :: before), after. split; [simpl; rewrite Hsplit; reflexivity|].
      split; [exact Hna|]. split.
      * intros x [<-|Hx]; [apply flt_asym; exact Hb | apply Hmin; exact Hx].
      * intros x [<-|Hx]; [right; exact Hb | apply Hbefore; exact Hx].
    + destruct (IH best Hbest) as (before & after & Hsplit & Hna & Hmin & Hbefore).
      set (b := min_loop key best r) in *.
      destruct before as [|x before].
      * simpl in Hsplit. injection Hsplit as Hb Hr.
        exists [], (k :: after). rewrite <- Hb in *.
        split; [simpl; rewrite Hr; reflexivity|]. split; [exact Hna|].
        split; [|intros y []].
        intros y [<-|[<-|Hy]]; [apply flt_irrefl | exact E |].
        apply Hmin. right. exact Hy.
      * simpl in Hsplit. injection Hsplit as Hx Hr. subst x.
        assert (Hb : flt (key b) (key best) = true).
        { destruct (Hbefore best) as [Hn|Hlt]; [left; reflexivity | | exact Hlt].
          unfold notna in Hbest. rewrite Hn in Hbest. discriminate. }
        assert (Hk : isna (key k) = true \/ flt (key b) (key k) = true).
        { destruct (isna (key k)) eqn:Ek; [left; reflexivity | right].
          apply (flt_lt_le _ (key best)); [unfold notna; rewrite Ek; reflexivity | exact Hb | exact E]. }
        exists (best :: k :: before), after.
        split; [simpl; rewrite Hr; reflexivity|]. split; [exact Hna|]. split.
        -- intros y [<-|[<-|Hy]].
           ++ apply flt_asym. exact Hb.
           ++ destruct Hk as [Hn|Hlt]; [|apply flt_asym; exact Hlt].
              destruct (key k); try discriminate. reflexivity.
           ++ apply Hmin. right. exact Hy.
        -- intros y [<-|[<-|Hy]]; [right; exact Hb | exact Hk |].
           apply Hbefore. right. exact Hy.
Qed.

Lemma errors_loop_step (df : DataFrame) (method : string) (col : string)
  (rest : list string) (errors : list (string * fval)) :
  method = "MAD" \/ method = "MSE" ->
  errors_loop df method (col :: rest) errors =
  do v <- metric df method col;
  errors_loop df method rest (dict_set col v errors).
Proof. intros [-> | ->]; reflexivity. Qed.

Lemma dict_set_fresh (k : string) (v : fval) (d : list (string * fval)) :
  ~ In k (map fst d) -> dict_set k v d = d ++ [(k, v)].
Proof.
  induction d as [|[k' v'] r IH]; simpl; intros Hk; [reflexivity|].
  destruct (String.eqb_spec k' k) as [->|Hne]; [tauto|].
  rewrite IH by tauto. reflexivity.
Qed.

Lemma errors_loop_run (df : DataFrame) (method : string) (M : string -> fval)
  (cols : list string) :
  method = "MAD" \/ method = "MSE" ->
  forall errors,
    NoDup (map fst errors ++ cols) ->
    (forall c, In c cols -> metric df method c = Ok (M c)) ->
    errors_loop df method cols errors =
    Ok (errors ++ map (fun c => (c, M c)) cols).
Proof.
  intros Hm. induction cols as [|col rest IH]; intros errors Hnd HM.
  - simpl. rewrite app_nil_r. reflexivity.
  - rewrite (errors_loop_step df method col rest errors Hm).
    rewrite (HM col) by (left; reflexivity). cbn [bind].
    rewrite dict_set_fresh.
    2:{ intros Hin. apply NoDup_remove_2 in Hnd. apply Hnd.
        apply in_or_app. left. exact Hin. }
    rewrite IH.
    + rewrite <- app_assoc. reflexivity.
    + rewrite map_app, <- app_assoc. exact Hnd.
    + intros c Hc. apply HM. right. exact Hc.
Qed.

Lemma dict_get_metrics (M : string -> fval) (cols : list string) (c : string) :
  In c cols -> dict_get c (map (fun c => (c, M c)) cols) = Some (M c).
Proof.
  induction cols as [|k r IH]; simpl; [tauto|]. intros Hin.
  destruct (String.eqb_spec k c) as [->|Hne]; [reflexivity|].
  apply IH. destruct Hin; [congruence | assumption].
Qed.

Lemma min_loop_ext (key key' : string -> fval) (ks : list string) :
  forall best,
    (forall k, In k (best :: ks) -> key k = key' k) ->
    min_loop key best ks = min_loop key' best ks.
Proof.
  induction ks as [|k r IH]; intros best H; [reflexivity|].
  cbn [min_loop]. rewrite (H k) by (right; left; reflexivity).
  rewrite (H best) by (left; reflexivity).
  destruct (flt (key' k) (key' best)); apply IH; intros x [<-|Hx]; apply H; simpl; tauto.
Qed.

Lemma forecast_cols_NoDup (df : DataFrame) : wf df -> NoDup (forecast_cols_of df).
Proof. intros [Hnd _]. apply NoDup_filter. exact Hnd. Qed.

(** [best_forecast] on a table whose first forecast column has a defined
    metric. *)
Lemma best_forecast_run (df : DataFrame) (method : string) (M : string -> fval)
  (c0 : string) (rest : list string) :
  wf df ->
  method = "MAD" \/ method = "MSE" ->
  forecast_cols_of df = c0 :: rest ->
  (forall c, In c (forecast_cols_of df) -> metric df method c = Ok (M c)) ->
  best_forecast df method = Ok (min_loop M c0 rest, M (min_loop M c0 rest)) /\
  In (min_loop M c0 rest) (c0 :: rest).
Proof.
  intros Hwf Hm Hcols HM. unfold best_forecast.
  rewrite (errors_loop_run df method M (forecast_cols_of df) Hm []).
  2:{ simpl. apply forecast_cols_NoDup. exact Hwf. }
  2:{ exact HM. }
  cbn [bind app]. rewrite map_map. cbn [fst]. rewrite map_id, Hcols.
  cbn [py_min bind].
  assert (Hext : min_loop (errors_get (map (fun c => (c, M c)) (c0 :: rest))) c0 rest
                 = min_loop M c0 rest).
  { apply min_loop_ext. intros k Hk. unfold errors_get.
    rewrite (dict_get_metrics M (c0 :: rest) k Hk). reflexivity. }
  rewrite Hext.
  assert (Hin : In (min_loop M c0 rest) (c0 :: rest)).
  { clear. revert c0. induction rest as [|k r IH]; intros c0; [left; reflexivity|].
    cbn [min_loop]. destruct (flt (M k) (M c0)).
    - right. apply IH.
    - destruct (IH c0) as [H|H]; [left; exact H | right; right; exact H]. }
  rewrite (dict_get_metrics M (c0 :: rest) _ Hin). split; [reflexivity | exact Hin].
Qed.

(** C4 (as amended).  On a well-formed table whose forecast columns are
    the three methods, in whatever order they stand in the table, and
    whose first forecast column has a defined (non-NaN) metric,
    [best_forecast] with the criterion "MAD" or "MSE" returns a method
    together with its metric [M best]; that metric is defined, no method
    has a smaller one, and every method whose column stands before it in
    the table has a strictly larger metric or an undefined one: among
    equal minima the first column of the table wins.  On numbers: when the
    returned metric is the number [v], every method whose metric is a
    number [w] has [v <= w], and [v < w] when its column stands before the
    returned one; and when all metrics are numbers or NaN the returned one
    is a number. *)
Theorem best_forecast_first_minimum (df : DataFrame) (method : string)
  (M : string -> fval) :
  wf df ->
  method = "MAD" \/ method = "MSE" ->
  Permutation (forecast_cols_of df)
              ["Naive"; "ThreeWeeksMA"; "ExponentialSmoothing"] ->
  (forall c, In c (forecast_cols_of df) -> metric df method c = Ok (M c)) ->
  (forall c rest, forecast_cols_of df = c :: rest -> notna (M c) = true) ->
  exists best before after,
    best_forecast df method = Ok (best, M best) /\
    forecast_cols_of df = before ++ best :: after /\
    notna (M best) = true /\
    (forall c, In c (forecast_cols_of df) -> flt (M c) (M best) = false) /\
    (forall c, In c before -> isna (M c) = true \/ flt (M best) (M c) = true) /\
    (forall v, M best = Fin v ->
       (forall c w, In c (forecast_cols_of df) -> M c = Fin w -> v <= w) /\
       (forall c w, In c before -> M c = Fin w -> v < w)) /\
    ((forall c, In c (forecast_cols_of df) -> finite_or_nan (M c)) ->
     exists v, M best = Fin v).
Proof.
  intros Hwf Hm Hperm HM Hfirst.
  destruct (forecast_cols_of df) as [|c0 rest] eqn:Hcols.
  { apply Permutation_nil in Hperm. discriminate. }
  pose proof (Hfirst c0 rest eq_refl) as Hc0.
  assert (HM' : forall c, In c (forecast_cols_of df) -> metric df method c = Ok (M c)).
  { rewrite Hcols. exact HM. }
  destruct (best_forecast_run df method M c0 rest Hwf Hm Hcols HM') as [Hrun Hin].
  destruct (min_loop_first_minimum M rest c0 Hc0)
    as (before & after & Hsplit & Hna & Hmin & Hbefore).
  exists (min_loop M c0 rest), before, after.
  split; [exact Hrun|]. split; [exact Hsplit|]. split; [exact Hna|].
  split; [exact Hmin|]. split; [exact Hbefore|]. split.
  - intros v Hv. split.
    + intros c w Hc Hw. apply flt_Fin_false. rewrite <- Hw, <- Hv.
      apply Hmin. exact Hc.
    + intros c w Hc Hw. apply flt_Fin_true. rewrite <- Hw, <- Hv.
      destruct (Hbefore c Hc) as [Hn|Hlt]; [|exact Hlt].
      rewrite Hw in Hn. discriminate.
  - intros Hfin. specialize (Hfin _ Hin).
    destruct (M (min_loop M c0 rest)) as [| | |v]; simpl in Hfin, Hna;
      try contradiction; try discriminate.
    exists v. reflexivity.
Qed.

Lemma best_forecast_first_minimum_witness :
  exists best before after,
    (best_forecast example_scored "MAD" = Ok (best, example_metric "MAD" best) /\
     forecast_cols_of example_scored = before ++ best :: after /\
     notna (example_metric "MAD" best) = true /\
     (forall c, In c (forecast_cols_of example_scored) ->
        flt (example_metric "MAD" c) (example_metric "MAD" best) = false) /\
     (forall c, In c before ->
        isna (example_metric "MAD" c) = true \/
        flt (example_metric "MAD" best) (example_metric "MAD" c) = true) /\
     (forall v, example_metric "MAD" best = Fin v ->
        (forall c w, In c (forecast_cols_of example_scored) ->
                     example_metric "MAD" c = Fin w -> v <= w) /\
        (forall c w, In c before -> example_metric "MAD" c = Fin w -> v < w)) /\
     ((forall c, In c (forecast_cols_of example_scored) ->
                 finite_or_nan (example_metric "MAD" c)) ->
      exists v, example_metric "MAD" best = Fin v)) /\
    best = "ExponentialSmoothing" /\
    before = ["Naive"; "ThreeWeeksMA"] /\
    feq (example_metric "MAD" best) (Fin (138 # 100)).
Proof.
  destruct (best_forecast_first_minimum example_scored "MAD" (example_metric "MAD"))
    as (best & before & after & Hrun & Hsplit & Hrest).
  - exact wf_example_scored.
  - left. reflexivity.
  - vm_compute. apply Permutation_refl.
  - intros c Hc. vm_compute in Hc.
    destruct Hc as [<-|[<-|[<-|[]]]]; vm_compute; reflexivity.
  - intros c rest Hc. vm_compute in Hc. injection Hc as <- _. reflexivity.
  - assert (Hbest : best = "ExponentialSmoothing").
    { assert (Hc : exists v, best_forecast example_scored "MAD"
                             = Ok ("ExponentialSmoothing", v))
        by (eexists; vm_compute; reflexivity).
      destruct Hc as [v Hv]. rewrite Hrun in Hv. injection Hv as Hb _. exact Hb. }
    exists best, before, after.
    split; [split; [exact Hrun | split; [exact Hsplit | exact Hrest]]|].
    split; [exact Hbest|]. subst best. split.
    + change (forecast_cols_of example_scored)
        with (["Naive"; "ThreeWeeksMA"] ++ "ExponentialSmoothing" :: []) in Hsplit.
      destruct before as [|b1 [|b2 [|b3 before]]]; simpl in Hsplit;
        injection Hsplit; intros; subst; try discriminate; try reflexivity;
        exfalso; repeat match goal with
                 | H : _ :: _ = _ :: _ |- _ => injection H; clear H; intros; subst
                 | H : [] = _ :: _ |- _ => discriminate H
                 | H : _ :: _ = [] |- _ => discriminate H
                 | H : _ = _ ++ _ :: _ |- _ => destruct before; simpl in H
                 end; try discriminate.
    + apply feqb_spec. vm_compute. reflexivity.
Defined.

(** Five weeks of constant demand 8, smoothed with [alpha = 1/2] before
    the other two passes: the forecast columns are the three methods, all
    three have MAD 0, and [best_forecast] returns ExponentialSmoothing,
    the first forecast column of the table, not Naive. *)
Lemma best_forecast_follows_column_order :
  exists df v,
    smoothing_first (constant_df 8 5) (1 # 2) = Ok df /\
    wf df /\
    Permutation (forecast_cols_of df)
                ["Naive"; "ThreeWeeksMA"; "ExponentialSmoothing"] /\
    (forall c, In c (forecast_cols_of df) ->
       exists m, mean_absolute_deviation df c = Ok m /\ feq m (Fin 0)) /\
    best_forecast df "MAD" = Ok ("ExponentialSmoothing", v) /\
    "ExponentialSmoothing" <> "Naive".
Proof.
  eexists. eexists. split; [vm_compute; reflexivity|].
  split; [apply wfb_sound; vm_compute; reflexivity|].
  split.
  { vm_compute.
    apply (Permutation_cons_append ["Naive"; "ThreeWeeksMA"] "ExponentialSmoothing"). }
  split.
  { intros c Hc. vm_compute in Hc.
    destruct Hc as [<-|[<-|[<-|[]]]]; eexists;
      (split; [vm_compute; reflexivity | vm_compute; reflexivity]). }
  split; [vm_compute; reflexivity | discriminate].
Qed.

(** * Further properties of the program *)

(** ** The passes on tables of any content *)

Lemma es_loop_ext (df df2 : DataFrame) (alpha : Q) (idx : list nat) :
  get_col "Demand" (columns df) = get_col "Demand" (columns df2) ->
  forall forecasts,
    es_loop df alpha idx forecasts = es_loop df2 alpha idx forecasts.
Proof.
  intros Heq. induction idx as [|i rest IH]; intros forecasts; [reflexivity|].
  cbn [es_loop]. unfold loc, getitem. rewrite Heq.
  destruct (i =? 0)%nat.
  - destruct (get_col "Demand" (columns df2)); cbn [bind]; [|reflexivity].
    destruct (nth_error _ i); cbn [bind]; [apply IH | reflexivity].
  - destruct (get_col "Demand" (columns df2)); cbn [bind]; [|reflexivity].
    destruct (nth_error _ (i - 1)); cbn [bind]; [|reflexivity].
    destruct (list_get forecasts (i - 1)); cbn [bind]; [apply IH | reflexivity].
Qed.

Lemma own_column_not_demand (p : pass) : "Demand" <> own_column p.
Proof. destruct p; discriminate. Qed.

(** The column a pass writes depends on the [Demand] column and the
    number of rows only. *)
Lemma run_pass_shape (p : pass) (d : Series) (n : nat) :
  length d = n ->
  exists s,
    length s = n /\
    forall df, nrows df = n ->
               get_col "Demand" (columns df) = Some d ->
               run_pass p df =
               Ok (mkDataFrame n (set_col (own_column p) s (columns df))).
Proof.
  intros Hd. destruct p as [| |alpha]; cbn [run_pass own_column].
  - exists (align n (shift 1 d)). split; [apply length_align|].
    intros df Hn Hget. unfold naive_forecast, getitem, setitem_series.
    rewrite Hget, Hn. reflexivity.
  - exists (align n (shift 1 (rolling_mean 3 d))). split; [apply length_align|].
    intros df Hn Hget. unfold three_weeks_moving_average, getitem, setitem_series.
    rewrite Hget, Hn. reflexivity.
  - destruct (es_loop_total (mkDataFrame n [("Demand", d)]) alpha d n eq_refl [])
      as (out & Hrun & Hl).
    { simpl. lia. }
    simpl in Hrun, Hl. exists out. split; [exact Hl|].
    intros df Hn Hget. unfold exponential_smoothing. rewrite Hn.
    rewrite (es_loop_ext df (mkDataFrame n [("Demand", d)]) alpha (seq 0 n))
      by (rewrite Hget; reflexivity).
    rewrite Hrun. cbn [bind]. unfold setitem_list.
    rewrite Hl, Hn, Nat.eqb_refl. reflexivity.
Qed.

Lemma set_col_twice (name : string) (s1 s2 : Series) (cols : list (string * Series)) :
  set_col name s2 (set_col name s1 cols) = set_col name s2 cols.
Proof.
  induction cols as [|[k v] r IH]; simpl.
  - rewrite String.eqb_refl. reflexivity.
  - destruct (String.eqb k name) eqn:E; simpl; rewrite E; [reflexivity|].
    rewrite IH. reflexivity.
Qed.

(** ** X1: a pass on a table without demand *)

(** X1.  On a table without a [Demand] column [naive_forecast] and
    [three_weeks_moving_average] raise [KeyError('Demand')];
    [exponential_smoothing] raises it as well when the table has a row, but
    on a table without rows it raises nothing and adds an empty column. *)
Theorem pass_without_demand (df : DataFrame) (alpha : Q) :
  get_col "Demand" (columns df) = None ->
  naive_forecast df = Err (KeyError "Demand") /\
  three_weeks_moving_average df = Err (KeyError "Demand") /\
  ((1 <= nrows df)%nat ->
   exponential_smoothing df alpha = Err (KeyError "Demand")) /\
  (nrows df = 0%nat ->
   exponential_smoothing df alpha =
   Ok (mkDataFrame 0 (set_col "ExponentialSmoothing" [] (columns df)))).
Proof.
  intros Hd. unfold naive_forecast, three_weeks_moving_average, getitem.
  rewrite Hd. split; [reflexivity|]. split; [reflexivity|]. split.
  - intros Hn. unfold exponential_smoothing.
    destruct (nrows df) as [|n]; [lia|].
    cbn [seq es_loop Nat.eqb]. unfold loc, getitem. rewrite Hd. reflexivity.
  - intros Hn. unfold exponential_smoothing, setitem_list. rewrite Hn.
    reflexivity.
Qed.

Lemma pass_without_demand_witness :
  naive_forecast weeks_only = Err (KeyError "Demand") /\
  three_weeks_moving_average weeks_only = Err (KeyError "Demand") /\
  ((1 <= nrows weeks_only)%nat ->
   exponential_smoothing weeks_only (1 # 10) = Err (KeyError "Demand")) /\
  (nrows weeks_only = 0%nat ->
   exponential_smoothing weeks_only (1 # 10) =
   Ok (mkDataFrame 0 (set_col "ExponentialSmoothing" [] (columns weeks_only)))).
Proof.
  apply (pass_without_demand weeks_only (1 # 10)).
  reflexivity.
Defined.

(** ** X2, X3: running passes again, and in another order *)

Lemma pass_result (p : pass) (df : DataFrame) (d : Series) :
  wf df ->
  get_col "Demand" (columns df) = Some d ->
  exists s,
    length s = nrows df /\
    run_pass p df = Ok (mkDataFrame (nrows df) (set_col (own_column p) s (columns df))) /\
    wf (mkDataFrame (nrows df) (set_col (own_column p) s (columns df))) /\
    get_col "Demand" (set_col (own_column p) s (columns df)) = Some d /\
    forall df2, nrows df2 = nrows df ->
                get_col "Demand" (columns df2) = Some d ->
                run_pass p df2 =
                Ok (mkDataFrame (nrows df) (set_col (own_column p) s (columns df2))).
Proof.
  intros Hwf Hd.
  pose proof (wf_length df _ _ Hwf Hd) as Hlen.
  destruct (run_pass_shape p d (nrows df) Hlen) as (s & Hs & Hrun).
  exists s. split; [exact Hs|]. split; [apply Hrun; [reflexivity | exact Hd]|].
  destruct (set_col_frame df (own_column p) s Hwf Hs) as (Hwf' & _ & Hother & _).
  split; [exact Hwf'|]. split; [|exact Hrun].
  cbn [columns] in Hother. rewrite Hother by apply own_column_not_demand. exact Hd.
Qed.

(** X2.  A pass that is run on the table another pass for the same column
    has left (the same pass again, or smoothing with another [alpha])
    gives the table it gives when run alone: the column is recomputed from
    the demand and overwritten in place. *)
Theorem pass_rerun (p q : pass) (df : DataFrame) :
  wf df ->
  In "Demand" (column_names df) ->
  own_column p = own_column q ->
  exists df',
    run_pass q df = Ok df' /\
    (do df1 <- run_pass p df; run_pass q df1) = Ok df'.
Proof.
  intros Hwf Hin Hown.
  apply get_col_names in Hin. destruct Hin as [d Hd].
  destruct (pass_result p df d Hwf Hd) as (s & Hs & Hp & Hwf1 & Hd1 & _).
  destruct (pass_result q df d Hwf Hd) as (t & Ht & Hq & _ & _ & Hq2).
  eexists. split; [exact Hq|]. rewrite Hp. cbn [bind].
  rewrite (Hq2 (mkDataFrame (nrows df) (set_col (own_column p) s (columns df)))
             eq_refl Hd1).
  cbn [columns].
  rewrite Hown, set_col_twice. reflexivity.
Qed.

Lemma pass_rerun_witness :
  exists df',
    run_pass (ExponentialSmoothingPass (1 # 2)) example_df = Ok df' /\
    (do df1 <- run_pass (ExponentialSmoothingPass (1 # 10)) example_df;
     run_pass (ExponentialSmoothingPass (1 # 2)) df1) = Ok df'.
Proof.
  apply (pass_rerun (ExponentialSmoothingPass (1 # 10))
                    (ExponentialSmoothingPass (1 # 2)) example_df).
  - exact wf_example_df.
  - simpl. tauto.
  - reflexivity.
Defined.

(** X3.  Two passes for different columns can be run in either order: the
    two tables have the same rows and, name by name, the same columns
    (only the order in which new columns were added differs). *)
Theorem passes_commute (p q : pass) (df : DataFrame) :
  wf df ->
  In "Demand" (column_names df) ->
  own_column p <> own_column q ->
  exists a b,
    (do df1 <- run_pass p df; run_pass q df1) = Ok a /\
    (do df1 <- run_pass q df; run_pass p df1) = Ok b /\
    same_columns a b.
Proof.
  intros Hwf Hin Hne.
  apply get_col_names in Hin. destruct Hin as [d Hd].
  destruct (pass_result p df d Hwf Hd) as (s & Hs & Hp & _ & Hdp & Hp2).
  destruct (pass_result q df d Hwf Hd) as (t & Ht & Hq & _ & Hdq & Hq2).
  eexists. eexists. rewrite Hp, Hq. cbn [bind].
  rewrite (Hq2 (mkDataFrame (nrows df) (set_col (own_column p) s (columns df)))
             eq_refl Hdp).
  rewrite (Hp2 (mkDataFrame (nrows df) (set_col (own_column q) t (columns df)))
             eq_refl Hdq).
  split; [reflexivity|]. split; [reflexivity|].
  split; [reflexivity|]. intros name. cbn [columns].
  destruct (String.eqb_spec name (own_column q)) as [->|Hq'].
  - rewrite get_set_col_eq.
    rewrite get_set_col_ne by (intros E; apply Hne; symmetry; exact E).
    rewrite get_set_col_eq. reflexivity.
  - rewrite (get_set_col_ne (own_column q)) by exact Hq'.
    destruct (String.eqb_spec name (own_column p)) as [->|Hp'].
    + rewrite !get_set_col_eq. reflexivity.
    + rewrite !get_set_col_ne by assumption. reflexivity.
Qed.

Lemma passes_commute_witness :
  exists a b,
    (do df1 <- run_pass NaivePass example_df;
     run_pass (ExponentialSmoothingPass (1 # 10)) df1) = Ok a /\
    (do df1 <- run_pass (ExponentialSmoothingPass (1 # 10)) example_df;
     run_pass NaivePass df1) = Ok b /\
    same_columns a b.
Proof.
  apply (passes_commute NaivePass (ExponentialSmoothingPass (1 # 10)) example_df).
  - exact wf_example_df.
  - simpl. tauto.
  - discriminate.
Defined.

(** ** X4, X5: the views *)

(** X4.  On a table loaded with the columns [Week] and [Demand] (cells of
    any kind), the three passes succeed and leave the columns [Week],
    [Demand], [Naive], [ThreeWeeksMA], [ExponentialSmoothing] in this
    order; the all-forecasts view of that table is the table itself, and
    its actual-demand view is the table as loaded. *)
Theorem pipeline_views (n : nat) (w d : Series) (alpha : Q) :
  length w = n ->
  length d = n ->
  exists df',
    apply_forecasts (loaded n w d) alpha = Ok df' /\
    column_names df' =
      ["Week"; "Demand"; "Naive"; "ThreeWeeksMA"; "ExponentialSmoothing"] /\
    get_all_forecasts df' = Ok df' /\
    get_actual_demand df' = Ok (loaded n w d).
Proof.
  intros Hw Hd.
  destruct (run_pass_shape NaivePass d n Hd) as (s1 & _ & H1).
  destruct (run_pass_shape ThreeWeeksMAPass d n Hd) as (s2 & _ & H2).
  destruct (run_pass_shape (ExponentialSmoothingPass alpha) d n Hd) as (s3 & _ & H3).
  cbn [run_pass own_column] in H1, H2, H3.
  unfold apply_forecasts.
  rewrite (H1 (loaded n w d) eq_refl eq_refl). cbn [bind].
  rewrite (H2 (mkDataFrame n (set_col "Naive" s1 (columns (loaded n w d))))
             eq_refl eq_refl).
  cbn [bind].
  rewrite (H3 (mkDataFrame n
                 (set_col "ThreeWeeksMA" s2
                    (columns (mkDataFrame n
                       (set_col "Naive" s1 (columns (loaded n w d)))))))
             eq_refl eq_refl).
  eexists. split; [reflexivity|]. repeat split.
Qed.

Lemma pipeline_views_witness :
  exists df',
    apply_forecasts (loaded 4 (of_rationals [1; 2; 3; 4])
                              (of_rationals [10; 12; 11; 13])) (1 # 10) = Ok df' /\
    column_names df' =
      ["Week"; "Demand"; "Naive"; "ThreeWeeksMA"; "ExponentialSmoothing"] /\
    get_all_forecasts df' = Ok df' /\
    get_actual_demand df' =
      Ok (loaded 4 (of_rationals [1; 2; 3; 4]) (of_rationals [10; 12; 11; 13])).
Proof.
  apply (pipeline_views 4 (of_rationals [1; 2; 3; 4])
           (of_rationals [10; 12; 11; 13]) (1 # 10)); reflexivity.
Defined.

Lemma select_cols_ok (names : list string) (cols : list (string * Series)) :
  (forall name, In name names -> In name (map fst cols)) ->
  exists picked,
    select_cols names cols = Ok picked /\
    map fst picked = names /\
    (forall name, In name names -> get_col name picked = get_col name cols).
Proof.
  induction names as [|k r IH]; intros Hall.
  - exists []. repeat split. intros name [].
  - destruct (IH (fun name H => Hall name (or_intror H)))
      as (picked & Hsel & Hnames & Hcols).
    destruct (proj1 (get_col_names k cols) (Hall k (or_introl eq_refl))) as [s Hs].
    exists ((k, s) :: picked). cbn [select_cols]. rewrite Hs, Hsel. cbn [bind].
    split; [reflexivity|]. split; [simpl; rewrite Hnames; reflexivity|].
    intros name Hin. cbn [get_col].
    destruct (String.eqb_spec k name) as [->|Hne]; [symmetry; exact Hs|].
    apply Hcols. destruct Hin; [contradiction | assumption].
Qed.

Lemma select_cols_missing (names : list string) (cols : list (string * Series))
  (name : string) :
  In name names -> get_col name cols = None ->
  select_cols names cols = Err (KeyError "not in index").
Proof.
  induction names as [|k r IH]; intros Hin Hnone; [destruct Hin|].
  cbn [select_cols]. destruct Hin as [->|Hin].
  - rewrite Hnone. reflexivity.
  - destruct (get_col k cols); [|reflexivity].
    rewrite (IH Hin Hnone). reflexivity.
Qed.

(** X5.  [get_all_forecasts] on a table that holds the five columns, in
    whatever order and among whatever other columns, returns a table of the
    same rows with exactly [Week], [Demand], [Naive], [ThreeWeeksMA],
    [ExponentialSmoothing] in this order, each column as it is in the
    table; when one of the five is missing it raises [KeyError]. *)
Theorem get_all_forecasts_columns (df : DataFrame) :
  ((forall name,
      In name ["Week"; "Demand"; "Naive"; "ThreeWeeksMA"; "ExponentialSmoothing"] ->
      In name (column_names df)) ->
   exists v,
     get_all_forecasts df = Ok v /\
     nrows v = nrows df /\
     column_names v =
       ["Week"; "Demand"; "Naive"; "ThreeWeeksMA"; "ExponentialSmoothing"] /\
     (forall name, In name (column_names v) ->
                   get_col name (columns v) = get_col name (columns df))) /\
  (forall name,
     In name ["Week"; "Demand"; "Naive"; "ThreeWeeksMA"; "ExponentialSmoothing"] ->
     ~ In name (column_names df) ->
     exists k, get_all_forecasts df = Err (KeyError k)).
Proof.
  split.
  - intros Hall.
    destruct (select_cols_ok _ (columns df) Hall) as (picked & Hsel & Hnames & Hcols).
    exists (mkDataFrame (nrows df) picked).
    unfold get_all_forecasts, getitem_list. rewrite Hsel.
    split; [reflexivity|]. split; [reflexivity|]. split; [exact Hnames|].
    unfold column_names. cbn [columns]. rewrite Hnames. exact Hcols.
  - intros name Hin Hnot. eexists. unfold get_all_forecasts, getitem_list.
    rewrite (select_cols_missing _ (columns df) name Hin); [reflexivity|].
    destruct (get_col name (columns df)) as [s|] eqn:E; [|reflexivity].
    exfalso. apply Hnot. apply get_col_names. exists s. exact E.
Qed.

Lemma get_all_forecasts_columns_witness :
  (exists v,
     get_all_forecasts example_scored = Ok v /\
     nrows v = nrows example_scored /\
     column_names v =
       ["Week"; "Demand"; "Naive"; "ThreeWeeksMA"; "ExponentialSmoothing"] /\
     (forall name, In name (column_names v) ->
                   get_col name (columns v) = get_col name (columns example_scored))) /\
  (exists k, get_all_forecasts example_df = Err (KeyError k)).
Proof.
  split.
  - apply (proj1 (get_all_forecasts_columns example_scored)).
    intros name Hin. vm_compute. simpl in Hin. tauto.
  - apply (proj2 (get_all_forecasts_columns example_df) "Naive").
    + simpl. tauto.
    + vm_compute. intuition discriminate.
Defined.

(** ** X6: the sign of the error metrics *)

Lemma fabs_nonneg (v : fval) : fabs v = NaN \/ nonneg (fabs v).
Proof.
  destruct v as [| | |q]; simpl; auto. right. apply Qabs_nonneg.
Qed.

Lemma fpow2_nonneg (v : fval) : fpow2 v = NaN \/ nonneg (fpow2 v).
Proof.
  destruct v as [| | |q]; simpl; auto. right.
  destruct (Qlt_le_dec q 0) as [Hneg|Hpos].
  - setoid_replace (q * q) with ((- q) * (- q)) using relation Qeq by ring.
    apply Qmult_le_0_compat; lra.
  - apply Qmult_le_0_compat; assumption.
Qed.

Lemma dropna_nonneg (g : fval -> fval) (s : Series) :
  (forall v, g v = NaN \/ nonneg (g v)) ->
  Forall nonneg (dropna (map g s)).
Proof.
  intros Hg. unfold dropna. induction s as [|x s IH]; simpl; [constructor|].
  destruct (Hg x) as [Hn|Hp].
  - rewrite Hn. simpl. exact IH.
  - destruct (g x); simpl in *; try contradiction; constructor; simpl; auto.
Qed.

Lemma fsum_nonneg (l : list fval) : Forall nonneg l -> nonneg (fsum l).
Proof.
  induction 1 as [|x l Hx Hl IH]; [simpl; apply Qle_refl|].
  unfold fsum in *. cbn [fold_right].
  destruct x as [| | |q]; simpl in Hx; try contradiction;
    destruct (fold_right fadd (Fin 0) l) as [| | |r]; simpl in IH;
    try contradiction; simpl; auto.
  lra.
Qed.

Lemma mean_of_nonneg (l : list fval) :
  Forall nonneg l -> mean_of l = NaN \/ nonneg (mean_of l).
Proof.
  intros Hl. destruct l as [|x l]; [left; reflexivity|]. right.
  pose proof (fsum_nonneg _ Hl) as Hs. unfold mean_of.
  assert (Hk : 0 < inject_Z (Z.of_nat (length (x :: l)))).
  { unfold Qlt. simpl. lia. }
  unfold of_nat. destruct (fsum (x :: l)) as [| | |q]; simpl in Hs; try contradiction.
  - cbn [fdiv]. apply Qgt_alt in Hk. rewrite Hk. exact I.
  - cbn [fdiv]. rewrite Qeq_bool_length_pos by (simpl; lia).
    simpl. apply Qle_shift_div_l; [exact Hk | lra].
Qed.

(** X6.  Whatever the float64 cells of the demand and forecast columns,
    a MAD or MSE that the program returns is NaN or not negative (a number
    [>= 0], or plus infinity). *)
Theorem metrics_not_negative (df : DataFrame) (forecast_col : string)
  (mad mse : fval) :
  mean_absolute_deviation df forecast_col = Ok mad ->
  mean_squared_error df forecast_col = Ok mse ->
  (mad = NaN \/ nonneg mad) /\ (mse = NaN \/ nonneg mse).
Proof.
  unfold mean_absolute_deviation, mean_squared_error, getitem.
  destruct (get_col "Demand" (columns df)) as [d|]; [|discriminate].
  destruct (get_col forecast_col (columns df)) as [f|]; [|discriminate].
  cbn [bind]. intros [= <-] [= <-]. rewrite !series_mean_dropna. split.
  - apply mean_of_nonneg. apply dropna_nonneg. apply fabs_nonneg.
  - apply mean_of_nonneg. apply dropna_nonneg. apply fpow2_nonneg.
Qed.

Lemma metrics_not_negative_witness :
  exists mad mse,
    mean_absolute_deviation example_scored "Naive" = Ok mad /\
    mean_squared_error example_scored "Naive" = Ok mse /\
    (mad = NaN \/ nonneg mad) /\ (mse = NaN \/ nonneg mse).
Proof.
  eexists. eexists.
  split; [vm_compute; reflexivity|]. split; [vm_compute; reflexivity|].
  apply (metrics_not_negative example_scored "Naive"); vm_compute; reflexivity.
Defined.

Lemma Qsum_abs_nonneg (l : list Q) : 0 <= Qsum (map Qabs l).
Proof.
  induction l as [|x l IH]; simpl; [apply Qle_refl|].
  pose proof (Qabs_nonneg x). lra.
Qed.

(** ** X8 - X11: more on the best forecast *)

Lemma filter_none (A : Type) (f : A -> bool) (l : list A) :
  (forall x, In x l -> f x = false) -> filter f l = [].
Proof.
  induction l as [|x l IH]; intros H; [reflexivity|].
  simpl. rewrite (H x) by (left; reflexivity).
  apply IH. intros y Hy. apply H. right. exact Hy.
Qed.

(** X8.  On a table with no column besides [Week] and [Demand],
    [best_forecast] raises the [ValueError] of [min()] on an empty
    sequence, whatever the criterion: an unknown criterion is not reported
    as such, since the loop that checks it has nothing to run over. *)
Theorem best_forecast_no_forecast_columns (df : DataFrame) (method : string) :
  (forall name, In name (column_names df) -> name = "Week" \/ name = "Demand") ->
  best_forecast df method = Err (ValueError "min() arg is an empty sequence").
Proof.
  intros Hcols. unfold best_forecast, forecast_cols_of.
  rewrite filter_none; [reflexivity|].
  intros name Hin. destruct (Hcols name Hin) as [-> | ->]; reflexivity.
Qed.

Lemma best_forecast_no_forecast_columns_witness :
  best_forecast example_df "RMSE" =
  Err (ValueError "min() arg is an empty sequence").
Proof.
  apply (best_forecast_no_forecast_columns example_df "RMSE").
  intros name Hin. simpl in Hin. intuition.
Defined.

Lemma metric_defined (df : DataFrame) (method col : string) :
  In "Demand" (column_names df) -> In col (column_names df) ->
  metric df method col = Ok (metric_value df method col).
Proof.
  intros Hd Hc. apply get_col_names in Hd, Hc.
  destruct Hd as [d Hd], Hc as [f Hf].
  unfold metric_value, metric, mean_absolute_deviation, mean_squared_error, getitem.
  rewrite Hd, Hf. destruct (String.eqb method "MAD"); reflexivity.
Qed.

Lemma forecast_col_is_column (df : DataFrame) (col : string) :
  In col (forecast_cols_of df) ->
  In col (column_names df) /\ col <> "Week" /\ col <> "Demand".
Proof.
  unfold forecast_cols_of. rewrite filter_In. intros [Hin Hf].
  split; [exact Hin|]. simpl in Hf.
  destruct (String.eqb_spec col "Week"); [discriminate|].
  destruct (String.eqb_spec col "Demand"); [discriminate|].
  split; assumption.
Qed.

Lemma flt_NaN_r (a : fval) : flt a NaN = false.
Proof. destruct a; reflexivity. Qed.

Lemma min_loop_nan_first (key : string -> fval) (best : string) (ks : list string) :
  key best = NaN -> min_loop key best ks = best.
Proof.
  intros Hb. induction ks as [|k r IH]; [reflexivity|].
  cbn [min_loop]. rewrite Hb, flt_NaN_r. exact IH.
Qed.

(** X9.  When the metric of the first forecast column of the table is NaN,
    [best_forecast] returns that column with NaN, whatever the metrics of
    the other columns: no candidate compares below NaN. *)
Theorem best_forecast_nan_first (df : DataFrame) (method : string)
  (c0 : string) (rest : list string) :
  wf df ->
  method = "MAD" \/ method = "MSE" ->
  In "Demand" (column_names df) ->
  forecast_cols_of df = c0 :: rest ->
  metric df method c0 = Ok NaN ->
  best_forecast df method = Ok (c0, NaN).
Proof.
  intros Hwf Hm Hd Hcols Hc0.
  assert (HM : forall c, In c (forecast_cols_of df) ->
                         metric df method c = Ok (metric_value df method c)).
  { intros c Hc. apply metric_defined; [exact Hd|].
    apply (forecast_col_is_column df c Hc). }
  destruct (best_forecast_run df method (metric_value df method) c0 rest
              Hwf Hm Hcols HM) as [Hrun _].
  assert (Hnan : metric_value df method c0 = NaN).
  { unfold metric_value. rewrite Hc0. reflexivity. }
  rewrite (min_loop_nan_first _ c0 rest Hnan), Hnan in Hrun. exact Hrun.
Qed.

Lemma best_forecast_nan_first_witness :
  best_forecast one_week_scored "MAD" = Ok ("Naive", NaN) /\
  mean_absolute_deviation one_week_scored "ExponentialSmoothing" = Ok (Fin (0 # 1)).
Proof.
  split.
  - apply (best_forecast_nan_first one_week_scored "MAD" "Naive"
             ["ThreeWeeksMA"; "ExponentialSmoothing"]).
    + apply wfb_sound. vm_compute. reflexivity.
    + left. reflexivity.
    + vm_compute. tauto.
    + vm_compute. reflexivity.
    + vm_compute. reflexivity.
  - vm_compute. reflexivity.
Defined.

Lemma errors_loop_ok_inv (df : DataFrame) (method : string) (cols : list string) :
  method = "MAD" \/ method = "MSE" ->
  forall errors out,
    errors_loop df method cols errors = Ok out ->
    forall c, In c cols -> exists v, metric df method c = Ok v.
Proof.
  intros Hm. induction cols as [|col rest IH]; intros errors out Hrun c Hc;
    [destruct Hc|].
  rewrite (errors_loop_step df method col rest errors Hm) in Hrun.
  destruct (metric df method col) as [v|e] eqn:E; [|discriminate].
  cbn [bind] in Hrun. destruct Hc as [<-|Hc]; [exists v; exact E|].
  apply (IH _ _ Hrun c Hc).
Qed.

(** X10.  Whenever [best_forecast] returns a pair on a well-formed table,
    the criterion was "MAD" or "MSE", the name is a column of the table
    other than [Week] and [Demand], and the value is that column's own
    metric under the criterion. *)
Theorem best_forecast_answer (df : DataFrame) (method best : string) (v : fval) :
  wf df ->
  best_forecast df method = Ok (best, v) ->
  In best (column_names df) /\ best <> "Week" /\ best <> "Demand" /\
  ((method = "MAD" /\ mean_absolute_deviation df best = Ok v) \/
   (method = "MSE" /\ mean_squared_error df best = Ok v)).
Proof.
  intros Hwf Hbest.
  destruct (forecast_cols_of df) as [|c0 rest] eqn:Hcols.
  { unfold best_forecast in Hbest. rewrite Hcols in Hbest. discriminate. }
  assert (Hm : method = "MAD" \/ method = "MSE").
  { destruct (String.eqb_spec method "MAD") as [|H1]; [left; assumption|].
    destruct (String.eqb_spec method "MSE") as [|H2]; [right; assumption|].
    unfold best_forecast in Hbest. rewrite Hcols in Hbest.
    rewrite errors_loop_unknown in Hbest by assumption. discriminate. }
  assert (HM : forall c, In c (forecast_cols_of df) ->
                         metric df method c = Ok (metric_value df method c)).
  { intros c Hc.
    destruct (errors_loop df method (forecast_cols_of df) []) as [out|e] eqn:E.
    - destruct (errors_loop_ok_inv df method _ Hm _ _ E c Hc) as [x Hx].
      unfold metric_value. rewrite Hx. reflexivity.
    - unfold best_forecast in Hbest. rewrite E in Hbest. discriminate. }
  destruct (best_forecast_run df method (metric_value df method) c0 rest
              Hwf Hm Hcols HM) as [Hrun Hin].
  rewrite Hrun in Hbest. injection Hbest as <- <-.
  rewrite <- Hcols in Hin.
  destruct (forecast_col_is_column df _ Hin) as (H1 & H2 & H3).
  split; [exact H1|]. split; [exact H2|]. split; [exact H3|].
  pose proof (HM _ Hin) as Hval. unfold metric in Hval at 1.
  destruct Hm as [-> | ->]; [left | right]; (split; [reflexivity | exact Hval]).
Qed.

Lemma best_forecast_answer_witness :
  exists best v,
    best_forecast example_scored "MSE" = Ok (best, v) /\
    In best (column_names example_scored) /\ best <> "Week" /\ best <> "Demand" /\
    (("MSE" = "MAD" /\ mean_absolute_deviation example_scored best = Ok v) \/
     ("MSE" = "MSE" /\ mean_squared_error example_scored best = Ok v)).
Proof.
  eexists. eexists. split; [vm_compute; reflexivity|].
  apply (best_forecast_answer example_scored "MSE").
  - exact wf_example_scored.
  - vm_compute. reflexivity.
Defined.

(** X11.  On a well-formed table with a [Demand] column and at least one
    forecast column, [get_best_methods] succeeds; each of its two entries
    names a forecast column of the table together with that column's MAD,
    respectively MSE. *)
Theorem get_best_methods_total (df : DataFrame) (c0 : string) (rest : list string) :
  wf df ->
  In "Demand" (column_names df) ->
  forecast_cols_of df = c0 :: rest ->
  exists r,
    get_best_methods df = Ok r /\
    In (fst (best_by_MAD r)) (forecast_cols_of df) /\
    In (fst (best_by_MSE r)) (forecast_cols_of df) /\
    mean_absolute_deviation df (fst (best_by_MAD r)) = Ok (snd (best_by_MAD r)) /\
    mean_squared_error df (fst (best_by_MSE r)) = Ok (snd (best_by_MSE r)).
Proof.
  intros Hwf Hd Hcols.
  assert (HM : forall method c, In c (forecast_cols_of df) ->
                 metric df method c = Ok (metric_value df method c)).
  { intros method c Hc. apply metric_defined; [exact Hd|].
    apply (forecast_col_is_column df c Hc). }
  destruct (best_forecast_run df "MAD" (metric_value df "MAD") c0 rest
              Hwf (or_introl eq_refl) Hcols (HM "MAD")) as [Hmad Hin1].
  destruct (best_forecast_run df "MSE" (metric_value df "MSE") c0 rest
              Hwf (or_intror eq_refl) Hcols (HM "MSE")) as [Hmse Hin2].
  eexists. unfold get_best_methods. rewrite Hmad, Hmse. cbn [bind].
  split; [reflexivity|]. cbn [best_by_MAD best_by_MSE fst snd].
  rewrite Hcols. split; [exact Hin1|]. split; [exact Hin2|].
  rewrite <- Hcols in Hin1, Hin2.
  split; [exact (HM "MAD" _ Hin1) | exact (HM "MSE" _ Hin2)].
Qed.

Lemma get_best_methods_total_witness :
  exists r,
    get_best_methods example_scored = Ok r /\
    In (fst (best_by_MAD r)) (forecast_cols_of example_scored) /\
    In (fst (best_by_MSE r)) (forecast_cols_of example_scored) /\
    mean_absolute_deviation example_scored (fst (best_by_MAD r))
      = Ok (snd (best_by_MAD r)) /\
    mean_squared_error example_scored (fst (best_by_MSE r))
      = Ok (snd (best_by_MSE r)).
Proof.
  apply (get_best_methods_total example_scored "Naive"
           ["ThreeWeeksMA"; "ExponentialSmoothing"]).
  - exact wf_example_scored.
  - vm_compute. tauto.
  - vm_compute. reflexivity.
Defined.

(** ** X12, X13: more on the forecast for next week *)

(** X12.  On a table with [Week] and [Demand] columns,
    [forecast_next_week] raises [IndexError] when the table has no rows
    (whether or not the smoothing column is there), and
    [KeyError('ExponentialSmoothing')] when it has rows but the smoothing
    pass has not been run. *)
Theorem forecast_next_week_failures (df : DataFrame) (alpha : Q) (w d : Series) :
  get_col "Week" (columns df) = Some w ->
  get_col "Demand" (columns df) = Some d ->
  (d = [] ->
   forecast_next_week df alpha =
   Err (IndexError "single positional indexer is out-of-bounds")) /\
  (d <> [] ->
   get_col "ExponentialSmoothing" (columns df) = None ->
   forecast_next_week df alpha = Err (KeyError "ExponentialSmoothing")).
Proof.
  intros Hw Hd. unfold forecast_next_week, getitem. rewrite Hw, Hd. cbn [bind].
  split.
  - intros ->. reflexivity.
  - intros Hne Hes. rewrite Hes. destruct d; [congruence | reflexivity].
Qed.

Lemma forecast_next_week_failures_witness :
  (of_rationals [10; 12; 11; 13] = [] ->
   forecast_next_week example_df (1 # 10) =
   Err (IndexError "single positional indexer is out-of-bounds")) /\
  (of_rationals [10; 12; 11; 13] <> [] ->
   get_col "ExponentialSmoothing" (columns example_df) = None ->
   forecast_next_week example_df (1 # 10) = Err (KeyError "ExponentialSmoothing")).
Proof.
  apply (forecast_next_week_failures example_df (1 # 10)
           (of_rationals [1; 2; 3; 4]) (of_rationals [10; 12; 11; 13]));
    reflexivity.
Defined.







(** ** X14: the error table *)

Lemma scores_defined (df : DataFrame) (col : string) :
  In "Demand" (column_names df) -> In col (column_names df) ->
  exists mad mse ts,
    mean_absolute_deviation df col = Ok mad /\
    mean_squared_error df col = Ok mse /\
    tracking_signal df col = Ok ts.
Proof.
  intros Hd Hc. apply get_col_names in Hd, Hc.
  destruct Hd as [d Hd], Hc as [f Hf].
  unfold mean_absolute_deviation, mean_squared_error, tracking_signal, getitem.
  rewrite Hd, Hf. cbn [bind]. do 3 eexists. repeat split; reflexivity.
Qed.

Lemma scores_missing (df : DataFrame) (col : string) :
  In "Demand" (column_names df) -> ~ In col (column_names df) ->
  mean_absolute_deviation df col = Err (KeyError col).
Proof.
  intros Hd Hc. apply get_col_names in Hd. destruct Hd as [d Hd].
  unfold mean_absolute_deviation, getitem. rewrite Hd. cbn [bind].
  destruct (get_col col (columns df)) as [f|] eqn:E; [|reflexivity].
  exfalso. apply Hc. apply get_col_names. exists f. exact E.
Qed.

(** X14.  On a table with a [Demand] column, [get_error_table] returns
    three rows, for Naive, ThreeWeeksMA, ExponentialSmoothing in this order
    whatever the order of the table's columns, each holding that method's
    MAD, MSE and tracking signal, when the three forecast columns are
    there; when one is missing it raises [KeyError]. *)
Theorem get_error_table_rows (df : DataFrame) :
  In "Demand" (column_names df) ->
  (In "Naive" (column_names df) ->
   In "ThreeWeeksMA" (column_names df) ->
   In "ExponentialSmoothing" (column_names df) ->
   exists rows,
     get_error_table df = Ok rows /\
     map Method rows = ["Naive"; "ThreeWeeksMA"; "ExponentialSmoothing"] /\
     forall r, In r rows ->
       mean_absolute_deviation df (Method r) = Ok (MAD r) /\
       mean_squared_error df (Method r) = Ok (MSE r) /\
       tracking_signal df (Method r) = Ok (TS r)) /\
  (forall name,
     In name ["Naive"; "ThreeWeeksMA"; "ExponentialSmoothing"] ->
     ~ In name (column_names df) ->
     exists k, get_error_table df = Err (KeyError k)).
Proof.
  intros Hd. split.
  - intros H1 H2 H3.
    destruct (scores_defined df "Naive" Hd H1) as (a1 & b1 & c1 & Ha1 & Hb1 & Hc1).
    destruct (scores_defined df "ThreeWeeksMA" Hd H2) as (a2 & b2 & c2 & Ha2 & Hb2 & Hc2).
    destruct (scores_defined df "ExponentialSmoothing" Hd H3)
      as (a3 & b3 & c3 & Ha3 & Hb3 & Hc3).
    eexists. unfold get_error_table. cbn [error_table_loop].
    rewrite Ha1, Hb1, Hc1, Ha2, Hb2, Hc2, Ha3, Hb3, Hc3. cbn [bind app].
    split; [reflexivity|]. split; [reflexivity|].
    intros r [<-|[<-|[<-|[]]]]; cbn [Method MAD MSE TS]; auto.
  - intros name Hin Hmiss. unfold get_error_table. cbn [error_table_loop].
    destruct (in_dec string_dec "Naive" (column_names df)) as [H1|H1].
    2:{ rewrite (scores_missing df _ Hd H1). eexists. reflexivity. }
    destruct (scores_defined df "Naive" Hd H1) as (a1 & b1 & c1 & Ha1 & Hb1 & Hc1).
    rewrite Ha1, Hb1, Hc1. cbn [bind app].
    destruct (in_dec string_dec "ThreeWeeksMA" (column_names df)) as [H2|H2].
    2:{ rewrite (scores_missing df _ Hd H2). eexists. reflexivity. }
    destruct (scores_defined df "ThreeWeeksMA" Hd H2) as (a2 & b2 & c2 & Ha2 & Hb2 & Hc2).
    rewrite Ha2, Hb2, Hc2. cbn [bind app].
    destruct (in_dec string_dec "ExponentialSmoothing" (column_names df)) as [H3|H3].
    2:{ rewrite (scores_missing df _ Hd H3). eexists. reflexivity. }
    exfalso. destruct Hin as [<-|[<-|[<-|[]]]]; contradiction.
Qed.

Lemma get_error_table_rows_witness :
  (exists rows,
     get_error_table example_scored = Ok rows /\
     map Method rows = ["Naive"; "ThreeWeeksMA"; "ExponentialSmoothing"] /\
     forall r, In r rows ->
       mean_absolute_deviation example_scored (Method r) = Ok (MAD r) /\
       mean_squared_error example_scored (Method r) = Ok (MSE r) /\
       tracking_signal example_scored (Method r) = Ok (TS r)) /\
  (exists k, get_error_table example_df = Err (KeyError k)).
Proof.
  split.
  - apply (proj1 (get_error_table_rows example_scored ltac:(vm_compute; tauto)));
      vm_compute; tauto.
  - apply (proj2 (get_error_table_rows example_df ltac:(vm_compute; tauto)) "Naive").
    + simpl. tauto.
    + vm_compute. intuition discriminate.
Defined.

(** ** X15, X17: more on exponential smoothing *)

(** X15.  [exponential_smoothing] does not check [alpha].  With
    [alpha = 1] its column is the demand lagged by one week (the naive
    forecast) from index 1 on; with [alpha = 0] every cell is the first
    demand. *)
Theorem smoothing_extreme_alpha (df : DataFrame) (ds : list Q) (alpha : Q) :
  wf df ->
  get_col "Demand" (columns df) = Some (of_rationals ds) ->
  exists df' fs,
    exponential_smoothing df alpha = Ok df' /\
    get_col "ExponentialSmoothing" (columns df') = Some (of_rationals fs) /\
    length fs = length ds /\
    (alpha == 1 ->
     forall i, (1 <= i < length ds)%nat -> nth i fs 0 == nth (i - 1) ds 0) /\
    (alpha == 0 ->
     forall i, (i < length ds)%nat -> nth i fs 0 == nth 0 ds 0).
Proof.
  intros Hwf Hd.
  destruct (exponential_smoothing_run df ds alpha Hwf Hd) as (fs & Hrun & Hl & H0 & Hrec).
  eexists. exists fs. split; [exact Hrun|]. cbn [columns].
  split; [apply get_set_col_eq|]. split; [exact Hl|]. split.
  - intros Ha i Hi. rewrite Hrec by lia. rewrite Ha. ring.
  - intros Ha i. induction i as [|i IH]; intros Hi.
    + rewrite H0 by lia. reflexivity.
    + rewrite Hrec by lia. replace (S i - 1)%nat with i by lia.
      rewrite IH by lia. rewrite Ha. ring.
Qed.

Lemma smoothing_extreme_alpha_witness :
  exists df' fs,
    exponential_smoothing example_df 1 = Ok df' /\
    get_col "ExponentialSmoothing" (columns df') = Some (of_rationals fs) /\
    length fs = length [10; 12; 11; 13] /\
    (1 == 1 ->
     forall i, (1 <= i < length [10; 12; 11; 13])%nat ->
               nth i fs 0 == nth (i - 1) [10; 12; 11; 13] 0) /\
    (1 == 0 ->
     forall i, (i < length [10; 12; 11; 13])%nat ->
               nth i fs 0 == nth 0 [10; 12; 11; 13] 0).
Proof.
  apply (smoothing_extreme_alpha example_df [10; 12; 11; 13] 1).
  - exact wf_example_df.
  - reflexivity.
Defined.

Lemma es_cells_step (alpha : Q) (d forecasts : Series) :
  (1 <= length forecasts)%nat ->
  es_cells alpha d forecasts ->
  es_cells alpha d
    (forecasts ++
     [fadd (fmul (Fin alpha) (nth (length forecasts - 1) d NaN))
           (fmul (Fin (1 - alpha)) (nth (length forecasts - 1) forecasts NaN))]).
Proof.
  intros Hlen [H0 Hrec]. split.
  - intros _. rewrite nth_error_app1 by lia. apply H0. lia.
  - intros i Hi. rewrite length_app in Hi. simpl in Hi.
    rewrite (app_nth1 forecasts _ NaN (n := i - 1)) by lia.
    destruct (Nat.eq_dec i (length forecasts)) as [->|Hne].
    + rewrite nth_error_app2 by lia. rewrite Nat.sub_diag. reflexivity.
    + rewrite nth_error_app1 by lia. apply Hrec. lia.
Qed.

Lemma es_loop_cells (df : DataFrame) (alpha : Q) (d : Series) (m : nat) :
  get_col "Demand" (columns df) = Some d ->
  forall forecasts,
    (length forecasts + m <= length d)%nat ->
    es_cells alpha d forecasts ->
    exists out,
      es_loop df alpha (seq (length forecasts) m) forecasts = Ok out /\
      length out = (length forecasts + m)%nat /\
      es_cells alpha d out.
Proof.
  intros Hd. induction m as [|m IH]; intros forecasts Hlen Hcells.
  - exists forecasts. split; [reflexivity|]. split; [lia | exact Hcells].
  - cbn [seq es_loop]. unfold loc, getitem, list_get. rewrite Hd. cbn [bind].
    destruct (Nat.eqb_spec (length forecasts) 0) as [Hz|Hz].
    + destruct forecasts; [|discriminate]. cbn [length].
      rewrite (nth_error_nth' d NaN (n := 0)) by (simpl in Hlen; lia). cbn [bind app].
      destruct (IH [nth 0 d NaN]) as (out & Hrun & Hl & Hc).
      { simpl in *. lia. }
      { split; [|simpl; intros; lia].
        intros _. symmetry. apply nth_error_nth'. simpl in Hlen. lia. }
      exists out. split; [exact Hrun|]. split; [simpl in *; lia | exact Hc].
    + rewrite (nth_error_nth' d NaN (n := length forecasts - 1)) by lia.
      cbn [bind].
      rewrite (nth_error_nth' forecasts NaN (n := length forecasts - 1)) by lia.
      cbn [bind].
      assert (Hpos : (1 <= length forecasts)%nat) by lia.
      pose proof (es_cells_step alpha d forecasts Hpos Hcells) as Hstep.
      match type of Hstep with es_cells _ _ ?l =>
        assert (Hroom : (length l + m <= length d)%nat)
          by (rewrite length_app; simpl; lia);
        destruct (IH l Hroom Hstep) as (out & Hrun & Hl & Hc)
      end.
      rewrite length_app in Hrun, Hl. simpl in Hrun, Hl.
      rewrite Nat.add_1_r in Hrun.
      exists out. split; [exact Hrun|]. split; [lia | exact Hc].
Qed.

Lemma fadd_NaN_r (a : fval) : fadd a NaN = NaN.
Proof. destruct a; reflexivity. Qed.

(** X17.  A missing demand spoils the smoothing from then on: when the
    demand of week [j] is NaN, [exponential_smoothing] still succeeds, and
    every cell of its column after index [j] is NaN. *)
Theorem smoothing_missing_demand (df : DataFrame) (d : Series) (alpha : Q) (j : nat) :
  wf df ->
  get_col "Demand" (columns df) = Some d ->
  nth_error d j = Some NaN ->
  exists df' col,
    exponential_smoothing df alpha = Ok df' /\
    get_col "ExponentialSmoothing" (columns df') = Some col /\
    length col = length d /\
    forall i, (j < i < length d)%nat -> nth_error col i = Some NaN.
Proof.
  intros Hwf Hd Hj.
  pose proof (wf_length df _ _ Hwf Hd) as Hn.
  destruct (es_loop_cells df alpha d (nrows df) Hd []) as (out & Hrun & Hl & _ & Hrec).
  { simpl. lia. }
  { split; simpl; intros; lia. }
  simpl in Hrun, Hl.
  eexists. exists out. unfold exponential_smoothing. rewrite Hrun. cbn [bind].
  unfold setitem_list. rewrite Hl, Nat.eqb_refl.
  split; [reflexivity|]. cbn [columns]. split; [apply get_set_col_eq|].
  split; [lia|].
  intros i. induction i as [|i IH]; intros Hi; [lia|].
  rewrite Hrec by lia. replace (S i - 1)%nat with i by lia. f_equal.
  destruct (Nat.eq_dec i j) as [->|Hne].
  - rewrite (nth_error_nth d j NaN Hj). reflexivity.
  - assert (Hprev : nth_error out i = Some NaN) by (apply IH; lia).
    rewrite (nth_error_nth out i NaN Hprev).
    cbn [fmul]. apply fadd_NaN_r.
Qed.

Lemma smoothing_missing_demand_witness :
  exists df' col,
    exponential_smoothing gap_df (1 # 10) = Ok df' /\
    get_col "ExponentialSmoothing" (columns df') = Some col /\
    length col = length [Fin 10; NaN; Fin 11; Fin 13] /\
    forall i, (1 < i < length [Fin 10; NaN; Fin 11; Fin 13])%nat ->
              nth_error col i = Some NaN.
Proof.
  apply (smoothing_missing_demand gap_df [Fin 10; NaN; Fin 11; Fin 13] (1 # 10) 1).
  - apply wfb_sound. vm_compute. reflexivity.
  - reflexivity.
  - reflexivity.
Defined.

(** ** X18: no look-ahead *)

Lemma es_common_prefix (alpha : Q) (pre a b fs fs2 : list Q) :
  es_inv alpha (pre ++ a) fs -> es_inv alpha (pre ++ b) fs2 ->
  (1 <= length pre)%nat ->
  forall i, (i <= length pre)%nat -> (i < length fs)%nat -> (i < length fs2)%nat ->
            nth i fs 0 = nth i fs2 0.
Proof.
  intros [H0 Hrec] [H0' Hrec'] Hpre i. induction i as [|i IH]; intros Hi H1 H2.
  - rewrite H0, H0' by lia. rewrite !app_nth1 by lia. reflexivity.
  - rewrite Hrec, Hrec' by lia. replace (S i - 1)%nat with i by lia.
    rewrite IH by lia. rewrite !app_nth1 by lia. reflexivity.
Qed.

(** X18.  The forecasts never look ahead: for two tables whose numeric
    demands share their first [k >= 1] weeks, after the three passes each
    forecast column has the same cells in both tables at every index up to
    and including [k]. *)
Theorem no_look_ahead (df df2 : DataFrame) (alpha : Q) (pre a b : list Q) :
  wf df -> wf df2 ->
  get_col "Demand" (columns df) = Some (of_rationals (pre ++ a)) ->
  get_col "Demand" (columns df2) = Some (of_rationals (pre ++ b)) ->
  (1 <= length pre)%nat ->
  exists s s2,
    apply_forecasts df alpha = Ok s /\
    apply_forecasts df2 alpha = Ok s2 /\
    forall name,
      In name ["Naive"; "ThreeWeeksMA"; "ExponentialSmoothing"] ->
      exists c c2,
        get_col name (columns s) = Some c /\
        get_col name (columns s2) = Some c2 /\
        forall i, (i <= length pre)%nat ->
                  (i < length (pre ++ a))%nat -> (i < length (pre ++ b))%nat ->
                  nth_error c i = nth_error c2 i.
Proof.
  intros Hwf Hwf2 Hd Hd2 Hpre.
  destruct (apply_forecasts_columns df _ alpha Hwf Hd)
    as (s & fs & Hrun & _ & _ & Hn & Ht & He & Hl & Hinv).
  destruct (apply_forecasts_columns df2 _ alpha Hwf2 Hd2)
    as (s2 & fs2 & Hrun2 & _ & _ & Hn2 & Ht2 & He2 & Hl2 & Hinv2).
  exists s, s2. split; [exact Hrun|]. split; [exact Hrun2|].
  intros name [<-|[<-|[<-|[]]]]; do 2 eexists;
    (split; [eassumption|]); (split; [eassumption|]); intros i Hi Ha Hb.
  - rewrite !naive_column_cells by assumption.
    destruct (Nat.ltb_spec i 1); [reflexivity|].
    rewrite !app_nth1 by lia. reflexivity.
  - rewrite !tma_column_cells by assumption.
    destruct (Nat.ltb_spec i 3); [reflexivity|].
    rewrite !app_nth1 by lia. reflexivity.
  - rewrite !nth_error_of_rationals by lia.
    rewrite (es_common_prefix alpha pre a b fs fs2 Hinv Hinv2 Hpre i) by lia.
    reflexivity.
Qed.

Lemma no_look_ahead_witness :
  exists s s2,
    apply_forecasts history_a (1 # 10) = Ok s /\
    apply_forecasts history_b (1 # 10) = Ok s2 /\
    forall name,
      In name ["Naive"; "ThreeWeeksMA"; "ExponentialSmoothing"] ->
      exists c c2,
        get_col name (columns s) = Some c /\
        get_col name (columns s2) = Some c2 /\
        forall i, (i <= length [10; 12; 11])%nat ->
                  (i < length ([10; 12; 11] ++ [13; 14]))%nat ->
                  (i < length ([10; 12; 11] ++ [20]))%nat ->
                  nth_error c i = nth_error c2 i.
Proof.
  apply (no_look_ahead history_a history_b (1 # 10) [10; 12; 11] [13; 14] [20]).
  - apply wfb_sound. vm_compute. reflexivity.
  - apply wfb_sound. vm_compute. reflexivity.
  - reflexivity.
  - reflexivity.
  - simpl. lia.
Defined.

(** ** X19: when the tracking signal is undefined *)

Lemma finite_pairs (ds : list Q) (fs : Series) :
  Forall finite_or_nan fs ->
  exists prs : list (Q * Q),
    defined_pairs ds fs = map (fun p => (fst p, Fin (snd p))) prs.
Proof.
  revert fs; induction ds as [|d ds IH]; intros fs Hfs.
  - exists []. reflexivity.
  - destruct fs as [|f fs]; [exists []; reflexivity|].
    inversion Hfs as [|? ? Hf Hrest]; subst.
    destruct (IH fs Hrest) as (prs & Hp).
    destruct f as [| | |q]; simpl in Hf; try contradiction.
    + exists prs. cbn [defined_pairs notna isna negb]. exact Hp.
    + exists ((d, q) :: prs). cbn [defined_pairs notna isna negb map fst snd].
      rewrite Hp. reflexivity.
Qed.

Lemma Qabs_zero (x : Q) : Qabs x == 0 <-> x == 0.
Proof.
  split; intros H.
  - assert (Hle : Qabs x <= 0) by (rewrite H; apply Qle_refl).
    apply Qabs_Qle_condition in Hle. lra.
  - rewrite H. reflexivity.
Qed.

Lemma Qsum_abs_zero (l : list Q) :
  Qsum (map Qabs l) == 0 <-> Forall (fun e => e == 0) l.
Proof.
  induction l as [|x l IH]; simpl.
  - split; [constructor | reflexivity].
  - pose proof (Qabs_nonneg x) as Hx. pose proof (Qsum_abs_nonneg l) as Hl.
    split.
    + intros H. constructor.
      * apply Qabs_zero. lra.
      * apply IH. lra.
    + intros H. inversion H as [|? ? Hx0 Hl0]; subst.
      apply Qabs_zero in Hx0. apply IH in Hl0. lra.
Qed.

(** X19.  On a table with numeric demand and a forecast column whose cells
    are numbers or NaN, the tracking signal is NaN exactly when every
    defined forecast equals the demand of its week (which includes the
    column without any defined forecast). *)
Theorem tracking_signal_undefined_iff (df : DataFrame) (forecast_col : string)
  (ds : list Q) (fs : Series) (ts : fval) :
  wf df ->
  get_col "Demand" (columns df) = Some (of_rationals ds) ->
  get_col forecast_col (columns df) = Some fs ->
  Forall finite_or_nan fs ->
  tracking_signal df forecast_col = Ok ts ->
  (ts = NaN <-> forall d f, In (d, Fin f) (defined_pairs ds fs) -> f == d).
Proof.
  intros Hwf Hd Hf Hfin Hts.
  rewrite (tracking_signal_unfold df forecast_col ds fs Hwf Hd Hf) in Hts.
  injection Hts as <-.
  destruct (finite_pairs ds fs Hfin) as (prs & Hp).
  unfold MAD_over_defined, error_sum_over_defined. rewrite Hp, !map_map.
  cbn [fst snd].
  set (es := map (fun p : Q * Q => fst p + - snd p) prs).
  assert (Herr : map (fun p : Q * Q => fsub (Fin (fst p)) (Fin (snd p))) prs
                 = of_rationals es).
  { unfold es, of_rationals. rewrite map_map. reflexivity. }
  assert (Habs : map (fun p : Q * Q => fabs (fsub (Fin (fst p)) (Fin (snd p)))) prs
                 = of_rationals (map Qabs es)).
  { unfold es, of_rationals. rewrite !map_map. reflexivity. }
  rewrite Herr, Habs, fsum_of_rationals.
  assert (Hall : Forall (fun e => e == 0) es <->
                 forall d f, In (d, Fin f) (map (fun p : Q * Q => (fst p, Fin (snd p))) prs)
                             -> f == d).
  { unfold es. rewrite List.Forall_forall. split.
    - intros H d f Hin. apply in_map_iff in Hin. destruct Hin as ([d0 f0] & Heq & Hin).
      simpl in Heq. injection Heq as <- <-.
      pose proof (H (d0 + - f0) (in_map (fun p : Q * Q => fst p + - snd p) prs _ Hin)).
      lra.
    - intros H e He. apply in_map_iff in He. destruct He as ([d0 f0] & <- & Hin).
      simpl. assert (f0 == d0); [|lra].
      apply H. apply (in_map (fun p : Q * Q => (fst p, Fin (snd p))) prs _ Hin). }
  rewrite <- Hall.
  destruct es as [|e es'] eqn:Ees.
  - cbn [map of_rationals mean_of fne0]. rewrite fdiv_NaN_r.
    split; [constructor | reflexivity].
  - rewrite mean_of_of_rationals by discriminate.
    assert (Hk : 0 < inject_Z (Z.of_nat (length (map Qabs (e :: es'))))).
    { unfold Qlt. simpl. lia. }
    assert (Hmean : Qmean (map Qabs (e :: es')) == 0 <->
                    Qsum (map Qabs (e :: es')) == 0).
    { unfold Qmean. split; intros H.
      - rewrite <- (Qmult_div_r (Qsum (map Qabs (e :: es'))) _ (Qnot_eq_sym _ _ (Qlt_not_eq _ _ Hk))).
        rewrite H. ring.
      - unfold Qdiv. rewrite H. ring. }
    cbn [fne0]. destruct (Qeq_bool (Qmean (map Qabs (e :: es'))) 0) eqn:E.
    + cbn [negb]. split; [|reflexivity]. intros _.
      apply Qsum_abs_zero, Hmean, Qeq_bool_iff. exact E.
    + cbn [negb fdiv]. rewrite E. split; [discriminate|].
      intros H. apply Qsum_abs_zero, Hmean, Qeq_bool_iff in H. congruence.
Qed.

Lemma tracking_signal_undefined_iff_witness :
  exists ts,
    tracking_signal example_scored "Naive" = Ok ts /\
    (ts = NaN <->
     forall d f,
       In (d, Fin f)
          (defined_pairs [10; 12; 11; 13] [NaN; Fin 10; Fin 12; Fin 11]) ->
       f == d).
Proof.
  eexists. split; [vm_compute; reflexivity|].
  apply (tracking_signal_undefined_iff example_scored "Naive"
           [10; 12; 11; 13] [NaN; Fin 10; Fin 12; Fin 11]).
  - exact wf_example_scored.
  - reflexivity.
  - reflexivity.
  - repeat constructor.
  - vm_compute. reflexivity.
Defined.

(** ** X20: what the forecast for next week reads *)

Lemma forecast_next_week_ext (a b : DataFrame) (alpha : Q) :
  nrows a = nrows b ->
  get_col "Week" (columns a) = get_col "Week" (columns b) ->
  get_col "Demand" (columns a) = get_col "Demand" (columns b) ->
  get_col "ExponentialSmoothing" (columns a)
    = get_col "ExponentialSmoothing" (columns b) ->
  forecast_next_week a alpha = forecast_next_week b alpha.
Proof.
  intros Hn Hw Hd He. unfold forecast_next_week, getitem.
  rewrite Hn, Hw, Hd, He. reflexivity.
Qed.

(** X20.  [forecast_next_week] reads the [Week], [Demand] and
    [ExponentialSmoothing] columns only: on a well-formed table with a
    [Demand] column it gives the same outcome after the smoothing pass
    alone as after all three passes. *)
Theorem projection_needs_only_smoothing (df : DataFrame) (alpha beta : Q) :
  wf df ->
  In "Demand" (column_names df) ->
  exists s s',
    apply_forecasts df alpha = Ok s /\
    exponential_smoothing df alpha = Ok s' /\
    forecast_next_week s beta = forecast_next_week s' beta.
Proof.
  intros Hwf Hin. apply get_col_names in Hin. destruct Hin as [d Hd].
  destruct (pass_result NaivePass df d Hwf Hd) as (s1 & _ & H1 & Hwf1 & Hd1 & _).
  cbn [run_pass own_column] in H1, Hwf1, Hd1.
  destruct (pass_result ThreeWeeksMAPass _ d Hwf1 Hd1) as (s2 & _ & H2 & _ & Hd2 & _).
  cbn [run_pass own_column nrows columns] in H2, Hd2.
  destruct (pass_result (ExponentialSmoothingPass alpha) df d Hwf Hd)
    as (s3 & _ & H3 & _ & _ & H3').
  cbn [run_pass own_column] in H3, H3'.
  eexists. eexists. unfold apply_forecasts. rewrite H1. cbn [bind].
  rewrite H2. cbn [bind].
  rewrite (H3' (mkDataFrame (nrows df)
                  (set_col "ThreeWeeksMA" s2 (set_col "Naive" s1 (columns df))))
             eq_refl Hd2).
  split; [reflexivity|]. split; [exact H3|].
  apply forecast_next_week_ext; cbn [nrows columns].
  - reflexivity.
  - rewrite !get_set_col_ne by discriminate. reflexivity.
  - rewrite !get_set_col_ne by discriminate. reflexivity.
  - rewrite !get_set_col_eq. reflexivity.
Qed.

Lemma projection_needs_only_smoothing_witness :
  exists s s',
    apply_forecasts example_df (1 # 10) = Ok s /\
    exponential_smoothing example_df (1 # 10) = Ok s' /\
    forecast_next_week s (1 # 10) = forecast_next_week s' (1 # 10).
Proof.
  apply (projection_needs_only_smoothing example_df (1 # 10) (1 # 10)).
  - exact wf_example_df.
  - simpl. tauto.
Defined.
